(** * California Housing map: sampling, normalisation and map composition

    A shallow embedding of [calfornia_map.py].  The script loads the
    California Housing table, draws a seeded sample of its rows, and puts
    the sample on a folium map, either as coloured circle markers or as a
    weighted heat map.

    Conventions of the embedding:
    - The table's numbers are rationals ([Q]), the finite values of its
      binary64 cells.  NaN, the value pandas gives for the mean, minimum
      or maximum of an empty column, is [None].
    - What the script computes from them is a [float]: a finite number,
      an infinity or NaN.  A finite result is held exactly (rounding to
      53 bits is not modelled); a result too large for binary64 is an
      infinity, and what follows from it (infinity / infinity = NaN) is
      as in binary64.  Statements are kept to what rounding leaves true.
    - Python [int]s are [Z].
    - A raised exception is [Err]; a statement that completes is [Ok].
    - The libraries the script calls are modelled from their documented
      behaviour; the bit generator behind [DataFrame.sample], the mean
      pandas computes and the colour table of the "viridis" colormap are
      interfaces. *)

From Stdlib Require Import ZArith QArith Qminmax Qround Qabs List FinFun Permutation Bool Lia Lqa.
From Stdlib Require Import Floats.
Import ListNotations.
Open Scope Z_scope.

(** ** Exceptions and the error monad *)

(** Why a [ValueError] was raised (the library's message, as a tag). *)
Inductive reason : Type :=
| SeedOutOfRange         (* numpy: Seed must be between 0 and 2**32 - 1 *)
| NegativeRows           (* pandas: A negative number of rows requested *)
| EmptyPopulation        (* numpy: a must be greater than 0 unless no samples are taken *)
| LargerThanPopulation   (* numpy: Cannot take a larger sample than population when 'replace=False' *)
| NaNLocation            (* folium: Location values cannot contain NaNs *)
| NaNData                (* folium: data may not contain NaNs *)
| MinGreaterThanMax.     (* matplotlib: minvalue must be less than or equal to maxvalue *)

Inductive exn : Type :=
| ValueError (why : reason)
| IndexError
| ZeroDivisionError.

Inductive result (A : Type) : Type :=
| Ok (a : A)
| Err (e : exn).
Arguments Ok {A} a.
Arguments Err {A} e.

Definition bind {A B : Type} (r : result A) (k : A -> result B) : result B :=
  match r with
  | Ok a => k a
  | Err e => Err e
  end.

Notation "x <- r ;; k" := (bind r (fun x => k))
  (at level 61, r at next level, right associativity).

Fixpoint mapM {A B : Type} (f : A -> result B) (l : list A) : result (list B) :=
  match l with
  | [] => Ok []
  | a :: l' => b <- f a ;; bs <- mapM f l' ;; Ok (b :: bs)
  end.

(** ** The table *)

(** One district.  The table has six more columns (MedInc, HouseAge, ...);
    the script reads only these three. *)
Record Row : Type := mkRow {
  Latitude : Q;
  Longitude : Q;
  MedHouseVal : Q
}.

(** A frame is its rows with their index labels. *)
Definition DataFrame : Type := list (nat * Row).

(** [df = X_full.copy(); df["MedHouseVal"] = y]: the loaded rows under a
    RangeIndex. *)
Definition make_df (cal : list Row) : DataFrame :=
  combine (seq 0 (length cal)) cal.


Definition column (f : Row -> Q) (df : DataFrame) : list Q :=
  map (fun ir => f (snd ir)) df.

(** ** Column statistics *)

(** [Series.mean()]: the binary64 mean pandas computes, NaN exactly on an
    empty column.  Its value is the library's (the arithmetic mean up to
    rounding, which depends on the order of summation). *)
Record Mean : Type := mkMean {
  Series_mean : list Q -> option Q;
  Series_mean_nan : forall l, Series_mean l = None <-> l = []
}.

(** [Series.min()] and [Series.max()]: NaN on an empty column. *)
Definition Series_min (l : list Q) : option Q :=
  match l with
  | [] => None
  | x :: l' => Some (fold_left Qmin l' x)
  end.

Definition Series_max (l : list Q) : option Q :=
  match l with
  | [] => None
  | x :: l' => Some (fold_left Qmax l' x)
  end.

(** ** The bit generator behind [DataFrame.sample] *)

(** What the sampler needs of numpy's legacy generator: a state made from
    an accepted seed, and [random_interval], a draw from [0, max]. *)
Record BitGenerator : Type := mkGen {
  gen_state : Type;
  init_by_seed : Z -> gen_state;
  random_interval : gen_state -> nat -> nat * gen_state;
  random_interval_le : forall st max, (fst (random_interval st max) <= max)%nat
}.

(** [x[i], x[j] = x[j], x[i]] on a list of indices. *)
Fixpoint set_nth (x : list nat) (i : nat) (v : nat) : list nat :=
  match x, i with
  | [], _ => []
  | _ :: x', O => v :: x'
  | a :: x', S i' => a :: set_nth x' i' v
  end.

Definition swap (x : list nat) (i j : nat) : list nat :=
  set_nth (set_nth x i (nth j x O)) j (nth i x O).

Section Sampler.
Variable G : BitGenerator.

(** [np.random.RandomState(seed)]: legacy seeding takes a seed in
    [0, 2**32 - 1] and raises [ValueError] otherwise. *)
Definition RandomState (seed : Z) : result (gen_state G) :=
  if (0 <=? seed) && (seed <=? 2 ^ 32 - 1)
  then Ok (init_by_seed G seed)
  else Err (ValueError SeedOutOfRange).

(** [RandomState.shuffle]: for i = n-1 down to 1, swap x[i] with x[j],
    j drawn from [0, i]. *)
Fixpoint shuffle_raw (i : nat) (st : gen_state G) (x : list nat) : list nat :=
  match i with
  | O => x
  | S i' =>
      let (j, st') := random_interval G st i in
      shuffle_raw i' st' (swap x i j)
  end.

(** [RandomState.permutation(n)]: a shuffled [arange(n)]. *)
Definition permutation (st : gen_state G) (n : nat) : list nat :=
  shuffle_raw (n - 1) st (seq 0 n).

(** [RandomState.choice(pop_size, size, replace=False)]. *)
Definition choice (st : gen_state G) (pop_size : nat) (size : nat) : result (list nat) :=
  if (pop_size =? 0)%nat && negb (size =? 0)%nat then Err (ValueError EmptyPopulation)
  else if (pop_size <? size)%nat then Err (ValueError LargerThanPopulation)
  else Ok (firstn size (permutation st pop_size)).

(** [DataFrame.take(indices)]. *)
Definition take (df : DataFrame) (indices : list nat) : result DataFrame :=
  mapM (fun i => match nth_error df i with
                 | Some r => Ok r
                 | None => Err IndexError
                 end) indices.

(** [df.sample(n, random_state=seed)]: n rows without replacement. *)
Definition sample (df : DataFrame) (n : Z) (random_state : Z) : result DataFrame :=
  rs <- RandomState random_state ;;
  size <- (if n <? 0 then Err (ValueError NegativeRows) else Ok (Z.to_nat n)) ;;
  sampled_indices <- choice rs (length df) size ;;
  take df sampled_indices.

End Sampler.

(** ** Sidebar widgets *)





(** [st.sidebar.number_input(label, min_value=0, value=42, step=1)]. *)
Definition random_state_input (v : Z) : bool := 0 <=? v.

(** [st.sidebar.radio]: circle markers, or the heat map with its three
    sliders (shown only in that mode). *)
Inductive Mode : Type :=
| CircleMarkerMode
| HeatMapMode (radius blur max_z : Z).

(** ** Binary64 results *)

Definition Qltb (a b : Q) : bool :=
  match (a ?= b)%Q with Lt => true | _ => false end.

(** What an operation on finite numbers can give. *)
Inductive float : Type :=
| Finite (q : Q)
| Infinity (negative : bool)
| NaN.

(** From this magnitude on, a result rounds to an infinity. *)
Definition overflow_threshold : Q := inject_Z (2 ^ 1024 - 2 ^ 970).

Definition overflows (q : Q) : bool := Qle_bool overflow_threshold (Qabs q).

Definition round64 (q : Q) : float :=
  if overflows q then Infinity (Qltb q 0) else Finite q.

(** [a - b] on finite numbers. *)
Definition float_sub (a b : Q) : float := round64 (a - b).

(** [x > 0]. *)
Definition float_gt0 (x : float) : bool :=
  match x with
  | Finite q => Qltb 0 q
  | Infinity negative => negb negative
  | NaN => false
  end.

Definition float_is_zero (x : float) : bool :=
  match x with
  | Finite q => Qeq_bool q 0
  | _ => false
  end.

Definition float_is_nan (x : float) : bool :=
  match x with
  | NaN => true
  | _ => false
  end.

(** IEEE division by a divisor that is not zero. *)
Definition ieee_div (x y : float) : float :=
  match x, y with
  | NaN, _ => NaN
  | _, NaN => NaN
  | Infinity _, Infinity _ => NaN
  | Infinity s, Finite d => Infinity (xorb s (Qltb d 0))
  | Finite _, Infinity _ => Finite 0
  | Finite a, Finite d => round64 (a / d)
  end.

(** Python's [x / y] on floats: a zero divisor raises. *)
Definition py_div (x y : float) : result float :=
  if float_is_zero y then Err ZeroDivisionError else Ok (ieee_div x y).

(** ** matplotlib: normalisation and colormap lookup *)

(** [colors.Normalize(vmin, vmax)(value)], clip off; the division is
    numpy's, which raises nothing. *)
Definition Normalize (vmin vmax : Q) (value : Q) : result float :=
  if Qeq_bool vmin vmax then Ok (Finite 0)
  else if Qltb vmax vmin then Err (ValueError MinGreaterThanMax)
  else Ok (ieee_div (float_sub value vmin) (float_sub vmax vmin)).

(** [Colormap.__call__] on a float, as a position in a table of [N]
    colours: [x * N] truncated; 1.0 is the last entry; below 0 is the
    "under" colour and from 1 on the "over" colour, by default the first
    and the last entry. *)
Definition lut_index (N : nat) (x : Q) : nat :=
  let xa := (x * inject_Z (Z.of_nat N))%Q in
  if Qeq_bool xa (inject_Z (Z.of_nat N)) then (N - 1)%nat
  else if Qltb xa 0 then 0%nat
  else if Qle_bool (inject_Z (Z.of_nat N)) xa then (N - 1)%nat
  else Z.to_nat (Qfloor xa).

(** The same for any float: an infinity is "over" or "under", NaN takes
    the "bad" colour, row [N + 2] of the table. *)
Definition lut_index_float (N : nat) (x : float) : nat :=
  match x with
  | Finite q => lut_index N q
  | Infinity negative => if negative then 0%nat else (N - 1)%nat
  | NaN => (N + 2)%nat
  end.

(** ** folium *)

Record CircleMarker (Color : Type) : Type := mkCircleMarker {
  cm_location : Q * Q;
  cm_radius : Z;
  cm_color : Color;
  cm_fill : bool;
  cm_fill_color : Color;
  cm_fill_opacity : Q;
  cm_popup : Q        (* the quoted MedHouseVal; its two-digit rendering is left out *)
}.
Arguments mkCircleMarker {Color}.
Arguments cm_location {Color}.
Arguments cm_color {Color}.
Arguments cm_popup {Color}.

(** The heat layer keeps its data and these options; [max_val] is
    accepted and dropped. *)
Record HeatMap : Type := mkHeatMap {
  hm_data : list (Q * Q * float);
  hm_radius : Z;
  hm_blur : Z;
  hm_max_zoom : Z;
  hm_min_opacity : Q
}.

(** [HeatMap(data, radius, blur, max_zoom, min_opacity, max_val)]: data
    with a NaN in it is refused. *)
Definition folium_HeatMap (data : list (Q * Q * float))
    (radius blur max_zoom : Z) (min_opacity max_val : Q) : result HeatMap :=
  if existsb (fun p => float_is_nan (snd p)) data
  then Err (ValueError NaNData)
  else Ok (mkHeatMap data radius blur max_zoom min_opacity).

Inductive Tiles : Type :=
| CartoDB_positron.

Inductive Child (Color : Type) : Type :=
| TileLayerChild (tiles : Tiles)
| MarkerChild (c : CircleMarker Color)
| HeatMapChild (h : HeatMap).
Arguments TileLayerChild {Color}.
Arguments MarkerChild {Color}.
Arguments HeatMapChild {Color}.

Record Map (Color : Type) : Type := mkMap {
  location : Q * Q;
  zoom_start : Z;
  children : list (Child Color)
}.
Arguments mkMap {Color}.
Arguments location {Color}.
Arguments zoom_start {Color}.
Arguments children {Color}.

(** [folium.Map(location, zoom_start, tiles)]: the new map has its tile
    layer as first child. *)
Definition folium_Map {Color : Type} (loc : Q * Q) (zoom : Z) (tiles : Tiles)
  : Map Color :=
  mkMap loc zoom [TileLayerChild tiles].

(** [child.add_to(m)]. *)
Definition add_to {Color : Type} (c : Child Color) (m : Map Color) : Map Color :=
  mkMap (location m) (zoom_start m) (children m ++ [c]).

(** ** The script *)

(** Float division on numbers: [x / 0.0] raises. *)
Definition float_div (a b : Q) : result Q :=
  if Qeq_bool b 0 then Err ZeroDivisionError else Ok (a / b)%Q.

(** Line 123, when [vmax - vmin] does not overflow. *)
Definition denom (vmin vmax : Q) : Q :=
  if Qltb 0 (vmax - vmin) then (vmax - vmin)%Q else 1%Q.

(** The weight of a value, third entry of a heat-map point (line 125),
    when nothing overflows. *)
Definition weight (vmin vmax : Q) (v : Q) : result Q :=
  float_div (v - vmin) (denom vmin vmax).

(** Lines 123 and 125 with binary64 overflow: [vmax - vmin] can be an
    infinity, which passes the test [> 0] and becomes the divisor. *)
Definition denom64 (vmin vmax : Q) : float :=
  let d := float_sub vmax vmin in
  if float_gt0 d then d else Finite 1.

Definition weight64 (vmin vmax : Q) (v : Q) : result float :=
  py_div (float_sub v vmin) (denom64 vmin vmax).

(** ** Lines 123 and 125 on binary64 itself *)

(** The same two lines on the kernel's binary64 numbers, with their
    rounding; used to compute, not to reason. *)
Module Binary64.

Definition denom (vmin vmax : PrimFloat.float) : PrimFloat.float :=
  if PrimFloat.ltb 0%float (PrimFloat.sub vmax vmin)
  then PrimFloat.sub vmax vmin else 1%float.

Definition weight (vmin vmax v : PrimFloat.float) : result PrimFloat.float :=
  if PrimFloat.eqb (denom vmin vmax) 0%float then Err ZeroDivisionError
  else Ok (PrimFloat.div (PrimFloat.sub v vmin) (denom vmin vmax)).

End Binary64.

(** Lines 124 to 127. *)
Definition heat_data (vmin vmax : Q) (df_show : DataFrame)
  : result (list (Q * Q * float)) :=
  mapM (fun ir => let r := snd ir in
                  w <- weight64 vmin vmax (MedHouseVal r) ;;
                  Ok (Latitude r, Longitude r, w))
       df_show.

(** Lines 121 to 135: the heat layer of a sample, put on the map. *)
Definition add_heatmap {Color : Type} (vmin vmax : Q) (df_show : DataFrame)
    (radius blur max_z : Z) (m : Map Color) : result (Map Color) :=
  heat_data <- heat_data vmin vmax df_show ;;
  h <- folium_HeatMap heat_data radius blur max_z (2 # 10) 1 ;;
  Ok (add_to (HeatMapChild h) m).

(** What the script has bound when it reaches the map display. *)
Record Env (Color : Type) : Type := mkEnv {
  df_show : DataFrame;
  center_lat : Q;
  center_lon : Q;
  vmin : Q;
  vmax : Q;
  m : Map Color
}.
Arguments mkEnv {Color}.
Arguments df_show {Color}.
Arguments center_lat {Color}.
Arguments center_lon {Color}.
Arguments vmin {Color}.
Arguments vmax {Color}.
Arguments m {Color}.

Section Script.
Variable G : BitGenerator.
Variable P : Mean.
(** The "viridis" colormap: 256 colours; and [colors.to_hex]. *)
Variable RGBA : Type.
Variable Color : Type.
Variable viridis : nat -> RGBA.
Variable to_hex : RGBA -> Color.


Definition cmap_float (x : float) : RGBA := viridis (lut_index_float 256 x).

(** Line 108. *)
Definition color_of (vmin vmax : Q) (r : Row) : result Color :=
  x <- Normalize vmin vmax (MedHouseVal r) ;;
  Ok (to_hex (cmap_float x)).

(** One turn of the marker loop (lines 108 to 117). *)
Definition add_marker (vmin vmax : Q) (m : Map Color) (ir : nat * Row)
  : result (Map Color) :=
  let r := snd ir in
  color <- color_of vmin vmax r ;;
  Ok (add_to (MarkerChild
                (mkCircleMarker (Latitude r, Longitude r) 3 color true color
                                (85 # 100) (MedHouseVal r)))
             m).

Fixpoint add_markers (vmin vmax : Q) (m : Map Color) (rows : DataFrame)
  : result (Map Color) :=
  match rows with
  | [] => Ok m
  | ir :: rows' =>
      m' <- add_marker vmin vmax m ir ;;
      add_markers vmin vmax m' rows'
  end.

(** Lines 51 to 135, for the values the widgets returned. *)
Definition script (cal : list Row) (max_show random_state : Z) (mode : Mode)
  : result (Env Color) :=
  let df := make_df cal in
  df_show <- sample G df max_show random_state ;;
  match Series_mean P (column Latitude df), Series_mean P (column Longitude df),
        Series_min (column MedHouseVal df), Series_max (column MedHouseVal df) with
  | Some center_lat, Some center_lon, Some vmin, Some vmax =>
      let m := folium_Map (center_lat, center_lon) 6 CartoDB_positron in
      m' <- match mode with
            | CircleMarkerMode => add_markers vmin vmax m df_show
            | HeatMapMode radius blur max_z =>
                add_heatmap vmin vmax df_show radius blur max_z m
            end ;;
      Ok (mkEnv df_show center_lat center_lon vmin vmax m')
  | _, _, _, _ =>
      (* an empty table: the means are NaN and folium.Map refuses them *)
      Err (ValueError NaNLocation)
  end.

End Script.

(** ** Reading a finished map *)

(** The weighted points of the map's heat layer, and its markers. *)
Definition heat_points {Color : Type} (mp : Map Color) : list (Q * Q * float) :=
  flat_map (fun c => match c with
                     | HeatMapChild h => hm_data h
                     | _ => []
                     end) (children mp).

Definition markers {Color : Type} (mp : Map Color) : list (CircleMarker Color) :=
  flat_map (fun c => match c with
                     | MarkerChild c => [c]
                     | _ => []
                     end) (children mp).

Definition same_encoding (mode1 mode2 : Mode) : bool :=
  match mode1, mode2 with
  | CircleMarkerMode, CircleMarkerMode => true
  | HeatMapMode _ _ _, HeatMapMode _ _ _ => true
  | _, _ => false
  end.


(** ** Functions used to state the properties *)

(** The transposition of positions [i] and [j]. *)
Definition transpose (i j n : nat) : nat :=
  if (n =? j)%nat then i else if (n =? i)%nat then j else n.

(** The value the weight has: (v - vmin) / denom. *)
Definition normalized (lo hi v : Q) : Q := ((v - lo) / denom lo hi)%Q.

(** The point a heat-map run makes of a sampled row when nothing
    overflows. *)
Definition heat_row (lo hi : Q) (ir : nat * Row) : Q * Q * float :=
  (Latitude (snd ir), Longitude (snd ir),
   Finite (normalized lo hi (MedHouseVal (snd ir)))).

(** The marker the loop adds for a row, once its colour is known. *)
Definition marker_of {Color : Type} (ir : nat * Row) (c : Color) : CircleMarker Color :=
  mkCircleMarker (Latitude (snd ir), Longitude (snd ir)) 3 c true c
                 (85 # 100) (MedHouseVal (snd ir)).

(** The table position as a function of the bin [floor (256 x)]. *)
Definition bin_index (f : Z) : nat :=
  if f <? 0 then 0%nat else if 256 <=? f then 255%nat else Z.to_nat f.

(** The value range of the table fits binary64: [max - min] is finite. *)
Definition range_finite (cal : list Row) : bool :=
  match Series_min (map MedHouseVal cal), Series_max (map MedHouseVal cal) with
  | Some lo, Some hi => negb (overflows (hi - lo))
  | _, _ => true
  end.

(** ** Instances used to run the definitions *)

(** A small congruential generator; its draw from [0, max] is a remainder. *)
Definition lcg_draw (st : Z) (max : nat) : nat * Z :=
  (Z.to_nat (st mod (Z.of_nat max + 1)), (st * 1103515245 + 12345) mod 2 ^ 31).

Lemma lcg_draw_le (st : Z) (max : nat) : (fst (lcg_draw st max) <= max)%nat.
Proof.
  unfold lcg_draw; simpl fst.
  pose proof (Z.mod_pos_bound st (Z.of_nat max + 1)). lia.
Qed.

Definition Lcg : BitGenerator := mkGen Z (fun seed => seed) lcg_draw lcg_draw_le.

(** The mean without rounding: the sum over the count. *)
Definition Qsum (l : list Q) : Q := fold_right Qplus 0%Q l.

Definition exact_mean (l : list Q) : option Q :=
  match l with
  | [] => None
  | _ :: _ => Some (Qsum l / inject_Z (Z.of_nat (length l)))%Q
  end.

Lemma exact_mean_nan (l : list Q) : exact_mean l = None <-> l = [].
Proof.
  destruct l; simpl; split; intros H; congruence.
Qed.

Definition ExactMean : Mean := mkMean exact_mean exact_mean_nan.

(** The three-row table of the scenarios. *)
Definition row1 : Row := mkRow 10 20 1.
Definition row2 : Row := mkRow 11 21 2.
Definition row3 : Row := mkRow 12 22 3.
Definition dataset3 : list Row := [row1; row2; row3].

(** A table whose range is beyond binary64: -2**1023, 0, 2**1023. *)
Definition huge : Q := inject_Z (2 ^ 1023).
Definition dataset_huge : list Row :=
  [mkRow 10 20 (- huge); mkRow 11 21 0; mkRow 12 22 huge].

(** * Properties *)

(** ** The error monad *)

Lemma bind_Ok {A B : Type} (r : result A) (k : A -> result B) (b : B) :
  bind r k = Ok b -> exists a, r = Ok a /\ k a = Ok b.
Proof.
  destruct r as [a|e]; simpl; intros H; [eauto | discriminate].
Qed.

(** ** Swapping and shuffling *)

Lemma length_set_nth (x : list nat) (i v : nat) :
  length (set_nth x i v) = length x.
Proof.
  revert i; induction x as [|a x IH]; intros [|i]; simpl; auto.
Qed.

Lemma nth_error_set_nth_eq (x : list nat) (i v : nat) :
  (i < length x)%nat -> nth_error (set_nth x i v) i = Some v.
Proof.
  revert i; induction x as [|a x IH]; intros [|i]; simpl; intros H;
    try lia; auto.
  apply IH; lia.
Qed.

Lemma nth_error_set_nth_neq (x : list nat) (i v n : nat) :
  n <> i -> nth_error (set_nth x i v) n = nth_error x n.
Proof.
  revert i n; induction x as [|a x IH]; intros [|i] [|n]; simpl; intros H;
    auto; try congruence.
Qed.

Lemma nth_error_nth_lt (x : list nat) (i : nat) :
  (i < length x)%nat -> nth_error x i = Some (nth i x O).
Proof.
  intros H. apply nth_error_nth'. exact H.
Qed.

Lemma transpose_injective (i j : nat) : Injective (transpose i j).
Proof.
  intros a b. unfold transpose.
  destruct (Nat.eqb_spec a j), (Nat.eqb_spec b j),
           (Nat.eqb_spec a i), (Nat.eqb_spec b i); lia.
Qed.

Lemma nth_error_swap (x : list nat) (i j n : nat) :
  (i < length x)%nat -> (j < length x)%nat ->
  nth_error (swap x i j) n = nth_error x (transpose i j n).
Proof.
  intros Hi Hj. unfold swap, transpose.
  destruct (Nat.eqb_spec n j) as [->|Hnj].
  - rewrite nth_error_set_nth_eq by (rewrite length_set_nth; exact Hj).
    symmetry; apply nth_error_nth_lt; exact Hi.
  - rewrite nth_error_set_nth_neq by exact Hnj.
    destruct (Nat.eqb_spec n i) as [->|Hni].
    + rewrite nth_error_set_nth_eq by exact Hi.
      symmetry; apply nth_error_nth_lt; exact Hj.
    + apply nth_error_set_nth_neq; exact Hni.
Qed.

Lemma swap_Permutation (x : list nat) (i j : nat) :
  (i < length x)%nat -> (j < length x)%nat -> Permutation x (swap x i j).
Proof.
  intros Hi Hj. apply Permutation_nth_error. split.
  - unfold swap. now rewrite !length_set_nth.
  - exists (transpose i j). split.
    + apply transpose_injective.
    + intros n. apply nth_error_swap; assumption.
Qed.

Lemma shuffle_raw_Permutation (G : BitGenerator) (i : nat) :
  forall (st : gen_state G) (x : list nat),
    (i < length x)%nat -> Permutation x (shuffle_raw G i st x).
Proof.
  induction i as [|i IH]; intros st x Hi; simpl.
  - reflexivity.
  - pose proof (random_interval_le G st (S i)) as Hj.
    destruct (random_interval G st (S i)) as [j st']; simpl in Hj.
    assert (Hs : Permutation x (swap x (S i) j))
      by (apply swap_Permutation; lia).
    rewrite Hs at 1. apply IH.
    rewrite <- (Permutation_length Hs). lia.
Qed.

Lemma permutation_Permutation (G : BitGenerator) (st : gen_state G) (n : nat) :
  Permutation (seq 0 n) (permutation G st n).
Proof.
  unfold permutation. destruct n as [|n].
  - reflexivity.
  - apply shuffle_raw_Permutation. rewrite length_seq. lia.
Qed.

Lemma permutation_length (G : BitGenerator) (st : gen_state G) (n : nat) :
  length (permutation G st n) = n.
Proof.
  rewrite <- (Permutation_length (permutation_Permutation G st n)).
  apply length_seq.
Qed.

Lemma permutation_NoDup (G : BitGenerator) (st : gen_state G) (n : nat) :
  NoDup (permutation G st n).
Proof.
  apply (Permutation_NoDup (permutation_Permutation G st n)), seq_NoDup.
Qed.

Lemma permutation_lt (G : BitGenerator) (st : gen_state G) (n i : nat) :
  In i (permutation G st n) -> (i < n)%nat.
Proof.
  intros H.
  apply (Permutation_in _ (Permutation_sym (permutation_Permutation G st n))) in H.
  apply in_seq in H. lia.
Qed.

(** ** Frames, [take] and [choice] *)

Lemma make_df_length (cal : list Row) : length (make_df cal) = length cal.
Proof.
  unfold make_df. rewrite length_combine, length_seq. apply Nat.min_id.
Qed.

Lemma combine_seq_labels (cal : list Row) (s : nat) :
  map fst (combine (seq s (length cal)) cal) = seq s (length cal).
Proof.
  revert s; induction cal as [|r cal IH]; intros s; simpl; [reflexivity|].
  now rewrite IH.
Qed.

Lemma make_df_labels (cal : list Row) :
  map fst (make_df cal) = seq 0 (length cal).
Proof. apply combine_seq_labels. Qed.

Lemma make_df_label (cal : list Row) (i : nat) (ir : nat * Row) :
  nth_error (make_df cal) i = Some ir -> fst ir = i.
Proof.
  intros H.
  assert (Hm : nth_error (map fst (make_df cal)) i = Some (fst ir))
    by (rewrite nth_error_map, H; reflexivity).
  rewrite make_df_labels in Hm.
  assert (Hi : (i < length cal)%nat).
  { rewrite <- (length_seq (length cal) 0) at 1. apply nth_error_Some. congruence. }
  rewrite (nth_error_nth' _ O) in Hm by (rewrite length_seq; exact Hi).
  rewrite seq_nth in Hm by exact Hi. simpl in Hm. congruence.
Qed.

Lemma take_Ok (df : DataFrame) (indices : list nat) :
  Forall (fun i => (i < length df)%nat) indices ->
  exists rows, take df indices = Ok rows
               /\ Forall2 (fun i ir => nth_error df i = Some ir) indices rows.
Proof.
  induction 1 as [|i indices Hi _ IH]; simpl.
  - exists []. split; [reflexivity | constructor].
  - destruct IH as (rows & Hrows & Hall).
    destruct (nth_error df i) as [ir|] eqn:Hnth.
    + exists (ir :: rows). unfold take in Hrows |- *. simpl.
      rewrite Hnth. simpl. rewrite Hrows. simpl.
      split; [reflexivity | constructor; assumption].
    + apply nth_error_None in Hnth. lia.
Qed.

Lemma Forall2_labels (cal : list Row) (indices : list nat) (rows : DataFrame) :
  Forall2 (fun i ir => nth_error (make_df cal) i = Some ir) indices rows ->
  map fst rows = indices /\ incl rows (make_df cal).
Proof.
  induction 1 as [|i ir indices rows H _ [IH1 IH2]]; simpl.
  - split; [reflexivity | intros x []].
  - split.
    + f_equal; [eapply make_df_label; eassumption | exact IH1].
    + intros x [<-|Hx]; [eapply nth_error_In; eassumption | auto].
Qed.

Lemma firstn_In {A : Type} (n : nat) (l : list A) (x : A) :
  In x (firstn n l) -> In x l.
Proof.
  intros H. rewrite <- (firstn_skipn n l). apply in_or_app. now left.
Qed.

Lemma firstn_NoDup {A : Type} (n : nat) (l : list A) :
  NoDup l -> NoDup (firstn n l).
Proof.
  intros H. rewrite <- (firstn_skipn n l) in H.
  eapply NoDup_app_remove_r. exact H.
Qed.

Lemma choice_Ok (G : BitGenerator) (st : gen_state G) (pop_size size : nat) :
  (size <= pop_size)%nat ->
  choice G st pop_size size = Ok (firstn size (permutation G st pop_size)).
Proof.
  intros H. unfold choice.
  destruct ((pop_size =? 0)%nat && negb (size =? 0)%nat) eqn:E.
  - apply andb_true_iff in E. destruct E as [E1 E2].
    apply Nat.eqb_eq in E1. apply negb_true_iff, Nat.eqb_neq in E2. lia.
  - destruct (Nat.ltb_spec pop_size size); [lia | reflexivity].
Qed.

Lemma RandomState_Ok (G : BitGenerator) (seed : Z) :
  0 <= seed <= 2 ^ 32 - 1 -> RandomState G seed = Ok (init_by_seed G seed).
Proof.
  intros H. unfold RandomState.
  destruct (Z.leb_spec 0 seed), (Z.leb_spec seed (2 ^ 32 - 1)); simpl;
    try reflexivity; lia.
Qed.

(** The sample, spelled out, for arguments the libraries accept. *)
Lemma sample_Ok (G : BitGenerator) (cal : list Row) (k seed : Z) :
  0 <= k <= Z.of_nat (length cal) -> 0 <= seed <= 2 ^ 32 - 1 ->
  exists rows,
    sample G (make_df cal) k seed = Ok rows
    /\ map fst rows
       = firstn (Z.to_nat k) (permutation G (init_by_seed G seed) (length cal))
    /\ incl rows (make_df cal).
Proof.
  intros Hk Hs. unfold sample.
  rewrite (RandomState_Ok G seed Hs). simpl.
  destruct (Z.ltb_spec k 0); [lia|]. simpl.
  rewrite make_df_length, choice_Ok by lia. simpl.
  set (idx := firstn _ _).
  destruct (take_Ok (make_df cal) idx) as (rows & Hrows & Hall).
  { apply Forall_forall. intros i Hi. rewrite make_df_length.
    apply (permutation_lt G (init_by_seed G seed)).
    eapply firstn_In. exact Hi. }
  exists rows. split; [exact Hrows|].
  apply Forall2_labels. exact Hall.
Qed.

Lemma sample_inv (G : BitGenerator) (cal : list Row) (k seed : Z) (rows : DataFrame) :
  sample G (make_df cal) k seed = Ok rows ->
  0 <= k <= Z.of_nat (length cal) /\ 0 <= seed <= 2 ^ 32 - 1.
Proof.
  unfold sample, RandomState. intros H.
  destruct (Z.leb_spec 0 seed), (Z.leb_spec seed (2 ^ 32 - 1));
    simpl in H; try discriminate.
  destruct (Z.ltb_spec k 0); simpl in H; try discriminate.
  rewrite make_df_length in H. unfold choice in H.
  destruct ((length cal =? 0)%nat && negb (Z.to_nat k =? 0)%nat);
    simpl in H; try discriminate.
  destruct (Nat.ltb_spec (length cal) (Z.to_nat k)); simpl in H;
    try discriminate.
  lia.
Qed.

Lemma sample_length (G : BitGenerator) (cal : list Row) (k seed : Z) (rows : DataFrame) :
  sample G (make_df cal) k seed = Ok rows ->
  Z.of_nat (length rows) = k /\ NoDup rows /\ incl rows (make_df cal).
Proof.
  intros H. destruct (sample_inv G cal k seed rows H) as [Hk Hs].
  destruct (sample_Ok G cal k seed Hk Hs) as (rows' & Hrows & Hlab & Hincl).
  assert (rows' = rows) by congruence. subst rows'.
  repeat split.
  - rewrite <- (length_map fst), Hlab, length_firstn, permutation_length. lia.
  - apply (NoDup_map_inv fst). rewrite Hlab.
    apply firstn_NoDup, permutation_NoDup.
  - exact Hincl.
Qed.

(** Sampling as many rows as the table has returns the table, reordered. *)
Lemma sample_all (G : BitGenerator) (cal : list Row) (seed : Z) (rows : DataFrame) :
  sample G (make_df cal) (Z.of_nat (length cal)) seed = Ok rows ->
  Permutation rows (make_df cal).
Proof.
  intros H. destruct (sample_length G cal _ seed rows H) as (Hlen & Hnd & Hincl).
  apply NoDup_Permutation_bis.
  - exact Hnd.
  - rewrite make_df_length. lia.
  - exact Hincl.
Qed.

(** ** The sampler *)

(** C2, as the code has it: for every table, every k with
    1 <= k <= |table| and every seed the generator accepts
    (0 <= seed <= 2**32 - 1), [sample] returns k rows of the table, no row
    (index label) twice, and it is a function of its three arguments. *)
Theorem sample_subset (G : BitGenerator) (cal : list Row) (k seed : Z) :
  1 <= k <= Z.of_nat (length cal) -> 0 <= seed <= 2 ^ 32 - 1 ->
  exists rows,
    sample G (make_df cal) k seed = Ok rows
    /\ Z.of_nat (length rows) = k
    /\ NoDup (map fst rows)
    /\ incl rows (make_df cal)
    /\ forall rows', sample G (make_df cal) k seed = Ok rows' -> rows' = rows.
Proof.
  intros Hk Hs.
  destruct (sample_Ok G cal k seed) as (rows & Hrows & Hlab & Hincl);
    [lia | exact Hs |].
  exists rows. repeat split.
  - exact Hrows.
  - rewrite <- (length_map fst), Hlab, length_firstn, permutation_length. lia.
  - rewrite Hlab. apply firstn_NoDup, permutation_NoDup.
  - exact Hincl.
  - intros rows' H. congruence.
Qed.

Lemma sample_subset_witness :
  exists rows,
    sample Lcg (make_df dataset3) 2 42 = Ok rows
    /\ Z.of_nat (length rows) = 2
    /\ NoDup (map fst rows)
    /\ incl rows (make_df dataset3)
    /\ forall rows', sample Lcg (make_df dataset3) 2 42 = Ok rows' -> rows' = rows.
Proof.
  apply (sample_subset Lcg dataset3 2 42); simpl; lia.
Defined.

(** C2 as stated fails for a seed the generator refuses: 2**32 can be
    typed into the seed box, and with it no sample is returned. *)
Lemma sample_seed_refused :
  random_state_input (2 ^ 32) = true
  /\ sample Lcg (make_df dataset3) 3 (2 ^ 32) = Err (ValueError SeedOutOfRange).
Proof. split; reflexivity. Qed.

(** C5: a sample larger than the table is refused with a [ValueError] and
    no rows are returned; for a non-empty table and an accepted seed it is
    the "larger sample than population" error. *)
Theorem sample_larger_than_table (G : BitGenerator) (cal : list Row) (k seed : Z) :
  Z.of_nat (length cal) < k ->
  (exists why, sample G (make_df cal) k seed = Err (ValueError why))
  /\ ((0 < length cal)%nat -> 0 <= seed <= 2 ^ 32 - 1 ->
      sample G (make_df cal) k seed = Err (ValueError LargerThanPopulation)).
Proof.
  intros Hk. unfold sample, RandomState.
  destruct ((0 <=? seed) && (seed <=? 2 ^ 32 - 1)) eqn:Hseed; simpl.
  - destruct (Z.ltb_spec k 0); [lia|]. simpl.
    rewrite make_df_length. unfold choice.
    destruct (Nat.eqb_spec (length cal) 0) as [E|E]; simpl.
    + destruct (Nat.eqb_spec (Z.to_nat k) 0); [lia|]. simpl.
      split; [eauto | lia].
    + destruct (Nat.ltb_spec (length cal) (Z.to_nat k)); [|lia]. simpl.
      split; [eauto | reflexivity].
  - split; [eauto|]. intros _ Hs.
    destruct (Z.leb_spec 0 seed), (Z.leb_spec seed (2 ^ 32 - 1));
      simpl in Hseed; try discriminate; lia.
Qed.

Lemma sample_larger_than_table_witness :
  sample Lcg (make_df dataset3) 4 42 = Err (ValueError LargerThanPopulation).
Proof.
  apply (proj2 (sample_larger_than_table Lcg dataset3 4 42 ltac:(simpl; lia)));
    simpl; lia.
Defined.

(** ** The sample-size slider *)




(** ** Column statistics *)

Lemma Qmin_cases (x y : Q) :
  (Qmin x y = x /\ (x <= y)%Q) \/ (Qmin x y = y /\ (y <= x)%Q).
Proof.
  unfold Qmin, GenericMinMax.gmin.
  destruct (x ?= y)%Q eqn:E.
  - left. split; [reflexivity|]. apply Qeq_alt in E. rewrite E. apply Qle_refl.
  - left. split; [reflexivity|]. apply Qlt_alt in E. apply Qlt_le_weak, E.
  - right. split; [reflexivity|]. apply Qgt_alt in E. apply Qlt_le_weak, E.
Qed.

Lemma Qmax_cases (x y : Q) :
  (Qmax x y = x /\ (y <= x)%Q) \/ (Qmax x y = y /\ (x <= y)%Q).
Proof.
  unfold Qmax, GenericMinMax.gmax.
  destruct (x ?= y)%Q eqn:E.
  - left. split; [reflexivity|]. apply Qeq_alt in E. rewrite E. apply Qle_refl.
  - right. split; [reflexivity|]. apply Qlt_alt in E. apply Qlt_le_weak, E.
  - left. split; [reflexivity|]. apply Qgt_alt in E. apply Qlt_le_weak, E.
Qed.

Lemma fold_Qmin_le (l : list Q) :
  forall x y, In y (x :: l) -> (fold_left Qmin l x <= y)%Q.
Proof.
  induction l as [|a l IH]; intros x y Hy; simpl.
  - destruct Hy as [<-|[]]. apply Qle_refl.
  - assert (Hm : (fold_left Qmin l (Qmin x a) <= Qmin x a)%Q)
      by (apply IH; now left).
    destruct Hy as [<-|[<-|Hy]].
    + eapply Qle_trans; [exact Hm|].
      destruct (Qmin_cases x a) as [[-> H]|[-> H]]; [apply Qle_refl | exact H].
    + eapply Qle_trans; [exact Hm|].
      destruct (Qmin_cases x a) as [[-> H]|[-> H]]; [exact H | apply Qle_refl].
    + apply IH. now right.
Qed.

Lemma fold_Qmin_In (l : list Q) :
  forall x, In (fold_left Qmin l x) (x :: l).
Proof.
  induction l as [|a l IH]; intros x; simpl.
  - now left.
  - destruct (IH (Qmin x a)) as [H|H].
    + rewrite <- H.
      destruct (Qmin_cases x a) as [[-> _]|[-> _]]; [now left | right; now left].
    + right; right; exact H.
Qed.

Lemma fold_Qmax_ge (l : list Q) :
  forall x y, In y (x :: l) -> (y <= fold_left Qmax l x)%Q.
Proof.
  induction l as [|a l IH]; intros x y Hy; simpl.
  - destruct Hy as [<-|[]]. apply Qle_refl.
  - assert (Hm : (Qmax x a <= fold_left Qmax l (Qmax x a))%Q)
      by (apply IH; now left).
    destruct Hy as [<-|[<-|Hy]].
    + eapply Qle_trans; [|exact Hm].
      destruct (Qmax_cases x a) as [[-> H]|[-> H]]; [apply Qle_refl | exact H].
    + eapply Qle_trans; [|exact Hm].
      destruct (Qmax_cases x a) as [[-> H]|[-> H]]; [exact H | apply Qle_refl].
    + apply IH. now right.
Qed.

Lemma fold_Qmax_In (l : list Q) :
  forall x, In (fold_left Qmax l x) (x :: l).
Proof.
  induction l as [|a l IH]; intros x; simpl.
  - now left.
  - destruct (IH (Qmax x a)) as [H|H].
    + rewrite <- H.
      destruct (Qmax_cases x a) as [[-> _]|[-> _]]; [now left | right; now left].
    + right; right; exact H.
Qed.

(** [Series.min()] is a lower bound of the column and one of its values. *)
Lemma Series_min_spec (l : list Q) (lo : Q) :
  Series_min l = Some lo ->
  (forall y, In y l -> (lo <= y)%Q) /\ In lo l.
Proof.
  destruct l as [|x l]; simpl; intros H; [discriminate|].
  injection H as <-. split.
  - intros y Hy. apply fold_Qmin_le. exact Hy.
  - apply fold_Qmin_In.
Qed.

Lemma Series_max_spec (l : list Q) (hi : Q) :
  Series_max l = Some hi ->
  (forall y, In y l -> (y <= hi)%Q) /\ In hi l.
Proof.
  destruct l as [|x l]; simpl; intros H; [discriminate|].
  injection H as <-. split.
  - intros y Hy. apply fold_Qmax_ge. exact Hy.
  - apply fold_Qmax_In.
Qed.

Lemma Series_min_max (l : list Q) (lo hi : Q) :
  Series_min l = Some lo -> Series_max l = Some hi -> (lo <= hi)%Q.
Proof.
  intros Hlo Hhi. apply (Series_min_spec l lo Hlo).
  apply (Series_max_spec l hi Hhi).
Qed.

Lemma column_make_df (f : Row -> Q) (cal : list Row) :
  column f (make_df cal) = map f cal.
Proof.
  unfold column, make_df. generalize 0%nat.
  induction cal as [|r cal IH]; intros s; simpl; [reflexivity|].
  now rewrite IH.
Qed.

Lemma Qltb_lt (a b : Q) : Qltb a b = true <-> (a < b)%Q.
Proof.
  unfold Qltb. rewrite Qlt_alt.
  destruct (a ?= b)%Q; split; intros H; congruence.
Qed.

Lemma Qltb_ge (a b : Q) : Qltb a b = false <-> (b <= a)%Q.
Proof.
  split.
  - intros H. apply Qnot_lt_le. intros Hlt. apply Qltb_lt in Hlt. congruence.
  - intros H. destruct (Qltb a b) eqn:E; [|reflexivity].
    apply Qltb_lt in E. exfalso. eapply Qlt_not_le; eassumption.
Qed.

(** ** Normalisation *)

Lemma denom_pos (lo hi : Q) : (0 < denom lo hi)%Q.
Proof.
  unfold denom. destruct (Qltb 0 (hi - lo)) eqn:E.
  - apply Qltb_lt. exact E.
  - reflexivity.
Qed.

Lemma denom_range (lo hi : Q) : (lo < hi)%Q -> denom lo hi = (hi - lo)%Q.
Proof.
  intros H. unfold denom.
  assert (E : Qltb 0 (hi - lo) = true) by (apply Qltb_lt; lra).
  now rewrite E.
Qed.

Lemma denom_degenerate (lo hi : Q) : (hi == lo)%Q -> denom lo hi = 1%Q.
Proof.
  intros H. unfold denom.
  assert (E : Qltb 0 (hi - lo) = false) by (apply Qltb_ge; lra).
  now rewrite E.
Qed.

(** The division of line 125 never raises. *)
Lemma weight_Ok (lo hi v : Q) : weight lo hi v = Ok (normalized lo hi v).
Proof.
  unfold weight, float_div, normalized.
  destruct (Qeq_bool (denom lo hi) 0) eqn:E; [|reflexivity].
  apply Qeq_bool_eq in E. pose proof (denom_pos lo hi). lra.
Qed.

Lemma normalized_monotone (lo hi a b : Q) :
  (a <= b)%Q -> (normalized lo hi a <= normalized lo hi b)%Q.
Proof.
  intros H. unfold normalized, Qdiv.
  apply Qmult_le_compat_r; [lra|].
  apply Qlt_le_weak, Qinv_lt_0_compat, denom_pos.
Qed.

Lemma normalized_at_min (lo hi : Q) : (normalized lo hi lo == 0)%Q.
Proof.
  unfold normalized, Qdiv.
  assert (E : (lo - lo == 0)%Q) by ring.
  rewrite E. ring.
Qed.

Lemma normalized_at_max (lo hi : Q) : (lo < hi)%Q -> (normalized lo hi hi == 1)%Q.
Proof.
  intros H. unfold normalized. rewrite denom_range by exact H.
  field. lra.
Qed.

(** ** Overflow *)

Lemma one_lt_threshold : (1 < overflow_threshold)%Q.
Proof. reflexivity. Qed.

Lemma overflows_false (q : Q) :
  overflows q = false <-> (Qabs q < overflow_threshold)%Q.
Proof.
  unfold overflows. split; intros H.
  - apply Qnot_le_lt. intros Hle. apply Qle_bool_iff in Hle. congruence.
  - destruct (Qle_bool overflow_threshold (Qabs q)) eqn:E; [|reflexivity].
    apply Qle_bool_iff in E. exfalso. eapply Qlt_not_le; eassumption.
Qed.

Lemma overflows_between (q b : Q) :
  (0 <= q)%Q -> (q <= b)%Q -> overflows b = false -> overflows q = false.
Proof.
  intros H0 Hb Hov. apply overflows_false in Hov. apply overflows_false.
  rewrite Qabs_pos by exact H0.
  rewrite Qabs_pos in Hov by (eapply Qle_trans; eassumption).
  eapply Qle_lt_trans; eassumption.
Qed.

Lemma overflows_unit (q : Q) :
  (0 <= q)%Q -> (q <= 1)%Q -> overflows q = false.
Proof.
  intros H0 H1. apply overflows_false. rewrite Qabs_pos by exact H0.
  eapply Qle_lt_trans; [exact H1 | exact one_lt_threshold].
Qed.

Lemma round64_exact (q : Q) : overflows q = false -> round64 q = Finite q.
Proof.
  intros H. unfold round64. now rewrite H.
Qed.

Lemma round64_overflow (q : Q) :
  (0 <= q)%Q -> overflows q = true -> round64 q = Infinity false.
Proof.
  intros H0 H. unfold round64. rewrite H.
  assert (E : Qltb q 0 = false) by (apply Qltb_ge; exact H0).
  now rewrite E.
Qed.

(** ** Normalisation with overflow *)

(** Without overflow of [hi - lo], line 123 gives the plain divisor. *)
Lemma denom64_exact (lo hi : Q) :
  overflows (hi - lo) = false -> denom64 lo hi = Finite (denom lo hi).
Proof.
  intros H. unfold denom64, float_sub, denom.
  rewrite (round64_exact _ H). simpl.
  destruct (Qltb 0 (hi - lo)); reflexivity.
Qed.

(** The divisor of line 125 is never zero: the division never raises. *)
Lemma denom64_not_zero (lo hi : Q) : float_is_zero (denom64 lo hi) = false.
Proof.
  unfold denom64. destruct (float_sub hi lo) as [q|s|]; simpl.
  - destruct (Qltb 0 q) eqn:E; simpl.
    + apply Qltb_lt in E.
      destruct (Qeq_bool q 0) eqn:E0; [|reflexivity].
      apply Qeq_bool_eq in E0. lra.
    + reflexivity.
  - destruct s; reflexivity.
  - reflexivity.
Qed.

Lemma weight64_Ok (lo hi v : Q) :
  weight64 lo hi v = Ok (ieee_div (float_sub v lo) (denom64 lo hi)).
Proof.
  unfold weight64, py_div. now rewrite denom64_not_zero.
Qed.

(** Without overflow, on a value of the range, the weight is the plain
    quotient. *)
Lemma weight64_exact (lo hi v : Q) :
  overflows (hi - lo) = false -> (lo <= v)%Q -> (v <= hi)%Q ->
  weight64 lo hi v = Ok (Finite (normalized lo hi v)).
Proof.
  intros Hov H1 H2. rewrite weight64_Ok, (denom64_exact _ _ Hov).
  unfold float_sub.
  rewrite (round64_exact (v - lo))
    by (apply (overflows_between _ (hi - lo)); [lra | lra | exact Hov]).
  simpl. fold (normalized lo hi v).
  rewrite round64_exact; [reflexivity|].
  assert (Hd := denom_pos lo hi).
  assert (Hn : (normalized lo hi v <= normalized lo hi hi)%Q)
    by (apply normalized_monotone; exact H2).
  assert (H0 : (0 <= normalized lo hi v)%Q).
  { rewrite <- (normalized_at_min lo hi). apply normalized_monotone. exact H1. }
  apply overflows_unit; [exact H0|].
  eapply Qle_trans; [exact Hn|].
  destruct (Qlt_le_dec lo hi) as [Hlt|Hge].
  - rewrite (normalized_at_max lo hi Hlt). apply Qle_refl.
  - unfold normalized. rewrite (denom_degenerate lo hi) by lra.
    unfold Qdiv. assert (E : (hi - lo == 0)%Q) by lra.
    rewrite E. lra.
Qed.

(** Without overflow the weight is the one of [weight]. *)
Lemma weight64_weight (lo hi v : Q) :
  overflows (hi - lo) = false -> (lo <= v)%Q -> (v <= hi)%Q ->
  exists w, weight lo hi v = Ok w /\ weight64 lo hi v = Ok (Finite w).
Proof.
  intros Hov H1 H2. exists (normalized lo hi v).
  split; [apply weight_Ok | apply weight64_exact; assumption].
Qed.

(** A weight is NaN exactly when the row's own difference overflows. *)
Lemma weight64_nan (lo hi v : Q) :
  (lo <= v)%Q -> (v <= hi)%Q ->
  exists w, weight64 lo hi v = Ok w
            /\ float_is_nan w = overflows (v - lo)
            /\ (overflows (v - lo) = false ->
                exists q, w = Finite q /\ (0 <= q <= 1)%Q).
Proof.
  intros H1 H2. rewrite weight64_Ok. eexists. split; [reflexivity|].
  destruct (overflows (hi - lo)) eqn:Hov.
  - assert (Hpos : (0 <= hi - lo)%Q) by lra.
    assert (Hpos' : (0 <= v - lo)%Q) by lra.
    assert (Hd : denom64 lo hi = Infinity false).
    { unfold denom64, float_sub.
      rewrite (round64_overflow _ Hpos Hov). reflexivity. }
    rewrite Hd. unfold float_sub.
    destruct (overflows (v - lo)) eqn:Hv.
    + rewrite (round64_overflow _ Hpos' Hv). simpl.
      split; [reflexivity | discriminate].
    + rewrite (round64_exact _ Hv). simpl.
      split; [reflexivity|]. intros _. exists 0%Q. split; [reflexivity | lra].
  - pose proof (weight64_exact lo hi v Hov H1 H2) as Hw.
    rewrite weight64_Ok in Hw. injection Hw as ->.
    rewrite (overflows_between (v - lo) (hi - lo)) by (lra || exact Hov).
    simpl. split; [reflexivity|]. intros _.
    eexists. split; [reflexivity|].
    assert (Hd := denom_pos lo hi). split.
    + rewrite <- (normalized_at_min lo hi). apply normalized_monotone. exact H1.
    + eapply Qle_trans; [apply normalized_monotone; exact H2|].
      destruct (Qlt_le_dec lo hi) as [Hlt|Hge].
      * rewrite (normalized_at_max lo hi Hlt). apply Qle_refl.
      * unfold normalized. rewrite (denom_degenerate lo hi) by lra.
        unfold Qdiv. assert (E : (hi - lo == 0)%Q) by lra.
        rewrite E. lra.
Qed.

Lemma Normalize_exact (lo hi v : Q) :
  (lo < hi)%Q -> overflows (hi - lo) = false -> (lo <= v)%Q -> (v <= hi)%Q ->
  Normalize lo hi v = Ok (Finite ((v - lo) / (hi - lo))).
Proof.
  intros Hlt Hov H1 H2. unfold Normalize.
  destruct (Qeq_bool lo hi) eqn:E.
  - apply Qeq_bool_eq in E. lra.
  - assert (E' : Qltb hi lo = false) by (apply Qltb_ge; lra).
    rewrite E'.
    pose proof (weight64_exact lo hi v Hov H1 H2) as Hw.
    rewrite weight64_Ok, (denom64_exact _ _ Hov), (denom_range lo hi Hlt) in Hw.
    injection Hw as Hw. unfold float_sub at 2.
    rewrite (round64_exact _ Hov), Hw.
    unfold normalized. rewrite (denom_range lo hi Hlt). reflexivity.
Qed.

Lemma Normalize_degenerate (lo hi v : Q) :
  (hi == lo)%Q -> Normalize lo hi v = Ok (Finite 0).
Proof.
  intros H. unfold Normalize.
  assert (E : Qeq_bool lo hi = true) by (apply Qeq_eq_bool; lra).
  now rewrite E.
Qed.

Lemma Normalize_total (lo hi v : Q) :
  (lo <= hi)%Q -> exists x, Normalize lo hi v = Ok x.
Proof.
  intros H. unfold Normalize.
  destruct (Qeq_bool lo hi); [eauto|].
  assert (E' : Qltb hi lo = false) by (apply Qltb_ge; exact H).
  rewrite E'. eauto.
Qed.

Lemma make_df_In (cal : list Row) (ir : nat * Row) :
  In ir (make_df cal) -> In (snd ir) cal.
Proof.
  destruct ir as [i r]. unfold make_df. intros H.
  apply in_combine_r in H. exact H.
Qed.

Lemma table_value_in_range (cal : list Row) (lo hi : Q) (r : Row) :
  Series_min (map MedHouseVal cal) = Some lo ->
  Series_max (map MedHouseVal cal) = Some hi ->
  In r cal -> (lo <= MedHouseVal r <= hi)%Q.
Proof.
  intros Hlo Hhi Hr.
  assert (Hin : In (MedHouseVal r) (map MedHouseVal cal)) by (apply in_map; exact Hr).
  split; [apply (Series_min_spec _ lo Hlo) | apply (Series_max_spec _ hi Hhi)];
    exact Hin.
Qed.

Lemma normalized_unit (lo hi v : Q) :
  (lo <= v)%Q -> (v <= hi)%Q -> (0 <= normalized lo hi v <= 1)%Q.
Proof.
  intros H1 H2. split.
  - rewrite <- (normalized_at_min lo hi). apply normalized_monotone. exact H1.
  - eapply Qle_trans; [apply normalized_monotone; exact H2|].
    destruct (Qlt_le_dec lo hi) as [Hlt|Hge].
    + rewrite (normalized_at_max lo hi Hlt). apply Qle_refl.
    + assert (E : (hi == lo)%Q) by lra.
      unfold normalized. rewrite (denom_degenerate lo hi E).
      unfold Qdiv. assert (E' : (hi - lo == 0)%Q) by lra.
      rewrite E'. lra.
Qed.

(** C3, as the code has it: when the table's maximum exceeds its minimum
    and their difference is finite in binary64, the weight of the minimum
    is 0, the weight of the maximum is 1, the weight does not decrease
    when the value grows within the range, and every row of the table has
    its weight between 0 and 1. *)
Theorem weight_endpoints_monotone (cal : list Row) (lo hi : Q) :
  Series_min (column MedHouseVal (make_df cal)) = Some lo ->
  Series_max (column MedHouseVal (make_df cal)) = Some hi ->
  (lo < hi)%Q ->
  overflows (hi - lo) = false ->
  (exists w, weight64 lo hi lo = Ok (Finite w) /\ (w == 0)%Q)
  /\ (exists w, weight64 lo hi hi = Ok (Finite w) /\ (w == 1)%Q)
  /\ (forall a b, (lo <= a)%Q -> (a <= b)%Q -> (b <= hi)%Q ->
        exists wa wb, weight64 lo hi a = Ok (Finite wa)
                      /\ weight64 lo hi b = Ok (Finite wb)
                      /\ (wa <= wb)%Q)
  /\ (forall r, In r cal ->
        exists w, weight64 lo hi (MedHouseVal r) = Ok (Finite w)
                  /\ (0 <= w <= 1)%Q).
Proof.
  intros Hlo Hhi Hlt Hov. rewrite column_make_df in Hlo, Hhi.
  split.
  { eexists. split; [apply weight64_exact; [exact Hov | lra | lra]|].
    apply normalized_at_min. }
  split.
  { eexists. split; [apply weight64_exact; [exact Hov | lra | lra]|].
    apply normalized_at_max. exact Hlt. }
  split.
  { intros a b Ha Hab Hb. eexists; eexists.
    split; [apply weight64_exact; [exact Hov | lra | lra]|].
    split; [apply weight64_exact; [exact Hov | lra | lra]|].
    apply normalized_monotone. exact Hab. }
  intros r Hr.
  destruct (table_value_in_range cal lo hi r Hlo Hhi Hr) as [H1 H2].
  eexists. split; [apply weight64_exact; assumption|].
  apply normalized_unit; assumption.
Qed.

Lemma weight_endpoints_monotone_witness :
  (exists w, weight64 1 3 1 = Ok (Finite w) /\ (w == 0)%Q)
  /\ (exists w, weight64 1 3 3 = Ok (Finite w) /\ (w == 1)%Q)
  /\ (forall a b, (1 <= a)%Q -> (a <= b)%Q -> (b <= 3)%Q ->
        exists wa wb, weight64 1 3 a = Ok (Finite wa)
                      /\ weight64 1 3 b = Ok (Finite wb)
                      /\ (wa <= wb)%Q)
  /\ (forall r, In r dataset3 ->
        exists w, weight64 1 3 (MedHouseVal r) = Ok (Finite w)
                  /\ (0 <= w <= 1)%Q).
Proof.
  apply (weight_endpoints_monotone dataset3 1 3); reflexivity.
Defined.

(** C3 as stated fails when the range is beyond binary64: on the table
    -2**1023, 0, 2**1023 the maximum exceeds the minimum, their
    difference is an infinity, and the weight of the maximum is
    infinity / infinity = NaN, not 1.  The last line is the same
    computation on binary64 itself. *)
Lemma weight_of_max_nan :
  Series_min (column MedHouseVal (make_df dataset_huge)) = Some (- huge)%Q
  /\ Series_max (column MedHouseVal (make_df dataset_huge)) = Some huge
  /\ (- huge < huge)%Q
  /\ denom64 (- huge) huge = Infinity false
  /\ weight64 (- huge) huge huge = Ok NaN
  /\ match Binary64.weight (-0x1p+1023)%float 0x1p+1023%float 0x1p+1023%float with
     | Ok w => PrimFloat.is_nan w
     | Err _ => false
     end = true.
Proof.
  repeat split; vm_compute; reflexivity.
Qed.




(** ** The two layers *)

Lemma heat_data_Ok (lo hi : Q) (rows : DataFrame) :
  heat_data lo hi rows
  = Ok (map (fun ir => (Latitude (snd ir), Longitude (snd ir),
                        ieee_div (float_sub (MedHouseVal (snd ir)) lo)
                                 (denom64 lo hi))) rows).
Proof.
  unfold heat_data. induction rows as [|ir rows IH]; simpl; [reflexivity|].
  rewrite weight64_Ok. simpl. unfold heat_data in IH. rewrite IH. reflexivity.
Qed.

Lemma heat_data_weights (lo hi : Q) (rows : DataFrame) (points : list (Q * Q * float)) :
  heat_data lo hi rows = Ok points ->
  Forall2 (fun ir p => weight64 lo hi (MedHouseVal (snd ir)) = Ok (snd p)
                       /\ fst p = (Latitude (snd ir), Longitude (snd ir)))
          rows points.
Proof.
  rewrite heat_data_Ok. intros H. injection H as <-.
  induction rows as [|ir rows IH]; simpl; constructor; [|exact IH].
  simpl. split; [apply weight64_Ok | reflexivity].
Qed.

Lemma folium_HeatMap_inv (data : list (Q * Q * float)) (radius blur max_z : Z)
    (min_opacity max_val : Q) (h : HeatMap) :
  folium_HeatMap data radius blur max_z min_opacity max_val = Ok h ->
  h = mkHeatMap data radius blur max_z min_opacity
  /\ Forall (fun p => float_is_nan (snd p) = false) data.
Proof.
  unfold folium_HeatMap.
  destruct (existsb _ data) eqn:E; intros H; [discriminate|].
  injection H as <-. split; [reflexivity|].
  apply Forall_forall. intros p Hp.
  destruct (float_is_nan (snd p)) eqn:Ep; [|reflexivity].
  assert (Hex : existsb (fun p => float_is_nan (snd p)) data = true)
    by (apply existsb_exists; exists p; split; assumption).
  congruence.
Qed.

Lemma add_heatmap_inv {Color : Type} (lo hi : Q) (rows : DataFrame)
    (radius blur max_z : Z) (mp mp' : Map Color) :
  add_heatmap lo hi rows radius blur max_z mp = Ok mp' ->
  exists points,
    heat_data lo hi rows = Ok points
    /\ Forall (fun p => float_is_nan (snd p) = false) points
    /\ mp' = add_to (HeatMapChild (mkHeatMap points radius blur max_z (2 # 10))) mp.
Proof.
  unfold add_heatmap. intros H.
  apply bind_Ok in H. destruct H as (points & Hpts & H).
  apply bind_Ok in H. destruct H as (h & Hh & H).
  injection H as <-.
  apply folium_HeatMap_inv in Hh. destruct Hh as [-> Hnan].
  exists points. repeat split; assumption.
Qed.

Lemma add_heatmap_total {Color : Type} (lo hi : Q) (rows : DataFrame)
    (radius blur max_z : Z) (mp : Map Color) :
  overflows (hi - lo) = false ->
  Forall (fun ir => (lo <= MedHouseVal (snd ir) <= hi)%Q) rows ->
  exists mp', add_heatmap lo hi rows radius blur max_z mp = Ok mp'.
Proof.
  intros Hov Hrows. unfold add_heatmap.
  rewrite heat_data_Ok. simpl. unfold folium_HeatMap.
  match goal with |- context [existsb ?f ?l] => destruct (existsb f l) eqn:E end.
  - apply existsb_exists in E. destruct E as (p & Hp & Hnan).
    apply in_map_iff in Hp. destruct Hp as (ir & <- & Hir).
    rewrite Forall_forall in Hrows. destruct (Hrows ir Hir) as [H1 H2].
    pose proof (weight64_exact lo hi _ Hov H1 H2) as Hw.
    rewrite weight64_Ok in Hw. injection Hw as Hw.
    simpl in Hnan. rewrite Hw in Hnan. discriminate.
  - simpl. eauto.
Qed.

(** ** Runs of the script *)

Section ScriptProperties.
Variable G : BitGenerator.
Variable P : Mean.
Variables RGBA Color : Type.
Variable viridis : nat -> RGBA.
Variable to_hex : RGBA -> Color.

Abbreviation run := (script G P RGBA Color viridis to_hex).
Abbreviation colour := (color_of RGBA Color viridis to_hex).
Abbreviation mark := (add_markers RGBA Color viridis to_hex).

Lemma add_markers_inv (lo hi : Q) (rows : DataFrame) :
  forall mp mp' : Map Color,
    mark lo hi mp rows = Ok mp' ->
    location mp' = location mp
    /\ zoom_start mp' = zoom_start mp
    /\ exists cs,
        children mp' = children mp ++ map MarkerChild cs
        /\ Forall2 (fun ir mk => exists c, colour lo hi (snd ir) = Ok c
                                           /\ mk = marker_of ir c) rows cs.
Proof.
  induction rows as [|ir rows IH]; intros mp mp' H; simpl in H.
  - injection H as <-. split; [reflexivity|]. split; [reflexivity|].
    exists []. simpl. rewrite app_nil_r. split; [reflexivity | constructor].
  - apply bind_Ok in H. destruct H as (mp1 & H1 & H2).
    unfold add_marker in H1.
    apply bind_Ok in H1. destruct H1 as (c & Hc & H1).
    injection H1 as <-.
    destruct (IH _ _ H2) as (Hloc & Hzoom & cs & Hch & Hall).
    split; [exact Hloc|]. split; [exact Hzoom|].
    exists (marker_of ir c :: cs). split.
    + rewrite Hch. simpl. rewrite <- app_assoc. reflexivity.
    + constructor; [eauto | exact Hall].
Qed.

Lemma add_markers_total (lo hi : Q) (rows : DataFrame) :
  (lo <= hi)%Q ->
  forall mp : Map Color, exists mp', mark lo hi mp rows = Ok mp'.
Proof.
  intros Hle.
  induction rows as [|ir rows IH]; intros mp; simpl.
  - eauto.
  - unfold add_marker, color_of.
    destruct (Normalize_total lo hi (MedHouseVal (snd ir)) Hle) as (x & ->).
    simpl. apply IH.
Qed.

(** What a completed run has bound. *)
Lemma script_inv (cal : list Row) (k seed : Z) (mode : Mode) (env : Env Color) :
  run cal k seed mode = Ok env ->
  sample G (make_df cal) k seed = Ok (df_show env)
  /\ Series_mean P (map Latitude cal) = Some (center_lat env)
  /\ Series_mean P (map Longitude cal) = Some (center_lon env)
  /\ Series_min (map MedHouseVal cal) = Some (vmin env)
  /\ Series_max (map MedHouseVal cal) = Some (vmax env)
  /\ match mode with
     | CircleMarkerMode =>
         mark (vmin env) (vmax env)
              (folium_Map (center_lat env, center_lon env) 6 CartoDB_positron)
              (df_show env) = Ok (m env)
     | HeatMapMode radius blur max_z =>
         add_heatmap (vmin env) (vmax env) (df_show env) radius blur max_z
                     (folium_Map (center_lat env, center_lon env) 6 CartoDB_positron)
         = Ok (m env)
     end.
Proof.
  unfold script. intros H.
  apply bind_Ok in H. destruct H as (rows & Hrows & H).
  rewrite !column_make_df in H.
  destruct (Series_mean P (map Latitude cal)) as [clat|]; [|discriminate].
  destruct (Series_mean P (map Longitude cal)) as [clon|]; [|discriminate].
  destruct (Series_min (map MedHouseVal cal)) as [lo|]; [|discriminate].
  destruct (Series_max (map MedHouseVal cal)) as [hi|]; [|discriminate].
  apply bind_Ok in H. destruct H as (mp' & Hmp & H).
  injection H as <-. simpl.
  repeat split; try reflexivity; try assumption.
  destruct mode; exact Hmp.
Qed.

(** The map of a completed run: where it is centred and what it holds. *)
Lemma run_map (cal : list Row) (k seed : Z) (mode : Mode) (env : Env Color) :
  run cal k seed mode = Ok env ->
  location (m env) = (center_lat env, center_lon env)
  /\ zoom_start (m env) = 6.
Proof.
  intros H. apply script_inv in H.
  destruct H as (_ & _ & _ & _ & _ & Hmode).
  destruct mode as [|radius blur max_z].
  - apply add_markers_inv in Hmode. destruct Hmode as (-> & -> & _).
    split; reflexivity.
  - apply add_heatmap_inv in Hmode. destruct Hmode as (points & _ & _ & ->).
    split; reflexivity.
Qed.

Lemma mean_of_nonempty (l : list Q) : l <> [] -> exists mu, Series_mean P l = Some mu.
Proof.
  intros H. destruct (Series_mean P l) as [mu|] eqn:E; [eauto|].
  apply Series_mean_nan in E. contradiction.
Qed.

(** What a run needs before the layer is made. *)
Lemma script_layer (cal : list Row) (k seed : Z) (mode : Mode) :
  (0 < length cal)%nat ->
  0 <= k <= Z.of_nat (length cal) -> 0 <= seed <= 2 ^ 32 - 1 ->
  exists rows clat clon lo hi,
    sample G (make_df cal) k seed = Ok rows
    /\ Series_min (map MedHouseVal cal) = Some lo
    /\ Series_max (map MedHouseVal cal) = Some hi
    /\ incl rows (make_df cal)
    /\ run cal k seed mode
       = (m' <- match mode with
                | CircleMarkerMode =>
                    mark lo hi (folium_Map (clat, clon) 6 CartoDB_positron) rows
                | HeatMapMode radius blur max_z =>
                    add_heatmap lo hi rows radius blur max_z
                                (folium_Map (clat, clon) 6 CartoDB_positron)
                end ;;
          Ok (mkEnv rows clat clon lo hi m')).
Proof.
  intros Hne Hk Hs. unfold script.
  destruct (sample_Ok G cal k seed Hk Hs) as (rows & Hrows & _ & Hincl).
  rewrite Hrows. simpl. rewrite !column_make_df.
  destruct cal as [|r cal]; [simpl in Hne; lia|].
  set (l := r :: cal).
  destruct (mean_of_nonempty (map Latitude l)) as (clat & ->); [discriminate|].
  destruct (mean_of_nonempty (map Longitude l)) as (clon & ->); [discriminate|].
  exists rows, clat, clon,
    (fold_left Qmin (map MedHouseVal cal) (MedHouseVal r)),
    (fold_left Qmax (map MedHouseVal cal) (MedHouseVal r)).
  repeat split; try reflexivity. exact Hincl.
Qed.

(** A marker run completes when the table is not empty and the sampler
    accepts its arguments. *)
Lemma script_total_markers (cal : list Row) (k seed : Z) :
  (0 < length cal)%nat ->
  0 <= k <= Z.of_nat (length cal) -> 0 <= seed <= 2 ^ 32 - 1 ->
  exists env, run cal k seed CircleMarkerMode = Ok env.
Proof.
  intros Hne Hk Hs.
  destruct (script_layer cal k seed CircleMarkerMode Hne Hk Hs)
    as (rows & clat & clon & lo & hi & _ & Hlo & Hhi & _ & ->).
  pose proof (Series_min_max _ _ _ Hlo Hhi) as Hle.
  destruct (add_markers_total lo hi rows Hle
              (folium_Map (clat, clon) 6 CartoDB_positron)) as (mp' & ->).
  simpl. eauto.
Qed.

(** A heat-map run completes when, besides, the value range is finite in
    binary64. *)
Lemma script_total_heat (cal : list Row) (k seed radius blur max_z : Z) :
  (0 < length cal)%nat ->
  0 <= k <= Z.of_nat (length cal) -> 0 <= seed <= 2 ^ 32 - 1 ->
  range_finite cal = true ->
  exists env, run cal k seed (HeatMapMode radius blur max_z) = Ok env.
Proof.
  intros Hne Hk Hs Hfin.
  destruct (script_layer cal k seed (HeatMapMode radius blur max_z) Hne Hk Hs)
    as (rows & clat & clon & lo & hi & _ & Hlo & Hhi & Hincl & ->).
  unfold range_finite in Hfin. rewrite Hlo, Hhi in Hfin.
  apply negb_true_iff in Hfin.
  destruct (add_heatmap_total lo hi rows radius blur max_z
              (folium_Map (Color:=Color) (clat, clon) 6 CartoDB_positron) Hfin)
    as (mp' & ->).
  - apply Forall_forall. intros ir Hir.
    apply (table_value_in_range cal lo hi _ Hlo Hhi).
    apply make_df_In, Hincl, Hir.
  - simpl. eauto.
Qed.

Lemma children_markers (t : Tiles) (cs : list (CircleMarker Color)) (mp : Map Color) :
  children mp = TileLayerChild t :: map MarkerChild cs ->
  markers mp = cs /\ heat_points mp = [].
Proof.
  unfold markers, heat_points. intros ->. simpl.
  induction cs as [|c cs [IH1 IH2]]; simpl; [split; reflexivity|].
  rewrite IH1, IH2. split; reflexivity.
Qed.

(** A completed heat-map run: the map holds the tile layer and the heat
    layer; the layer's data are the weighted points of the sample, none
    of them NaN. *)
Lemma run_heat (cal : list Row) (k seed radius blur max_z : Z) (env : Env Color) :
  run cal k seed (HeatMapMode radius blur max_z) = Ok env ->
  exists points,
    heat_data (vmin env) (vmax env) (df_show env) = Ok points
    /\ Forall (fun p => float_is_nan (snd p) = false) points
    /\ children (m env)
       = [TileLayerChild CartoDB_positron;
          HeatMapChild (mkHeatMap points radius blur max_z (2 # 10))]
    /\ heat_points (m env) = points
    /\ markers (m env) = [].
Proof.
  intros H. apply script_inv in H.
  destruct H as (_ & _ & _ & _ & _ & Hmode).
  apply add_heatmap_inv in Hmode. destruct Hmode as (points & Hpts & Hnan & ->).
  exists points. split; [exact Hpts|]. split; [exact Hnan|].
  unfold heat_points, markers. simpl. rewrite app_nil_r.
  repeat split.
Qed.

(** A completed marker run: the map holds the tile layer and one marker
    per sampled row. *)
Lemma run_markers (cal : list Row) (k seed : Z) (env : Env Color) :
  run cal k seed CircleMarkerMode = Ok env ->
  Forall2 (fun ir mk => exists c, colour (vmin env) (vmax env) (snd ir) = Ok c
                                  /\ mk = marker_of ir c)
          (df_show env) (markers (m env))
  /\ heat_points (m env) = []
  /\ children (m env)
     = TileLayerChild CartoDB_positron :: map MarkerChild (markers (m env)).
Proof.
  intros H. apply script_inv in H.
  destruct H as (_ & _ & _ & _ & _ & Hmk).
  apply add_markers_inv in Hmk. destruct Hmk as (_ & _ & cs & Hch & Hall).
  simpl in Hch.
  destruct (children_markers CartoDB_positron cs (m env) Hch) as [Hm Hh].
  rewrite Hm, Hh. repeat split; assumption.
Qed.

Lemma Forall2_nth_error {A B : Type} (R : A -> B -> Prop) (l : list A) (l' : list B) :
  Forall2 R l l' ->
  forall i a, nth_error l i = Some a -> exists b, nth_error l' i = Some b /\ R a b.
Proof.
  induction 1 as [|x y l l' Hxy _ IH]; intros [|i] a Ha; simpl in *;
    try discriminate.
  - injection Ha as <-. eauto.
  - apply IH. exact Ha.
Qed.

Lemma Forall2_weaken {A B : Type} (R R' : A -> B -> Prop)
    (l : list A) (l' : list B) :
  Forall2 R l l' -> (forall a b, R a b -> R' a b) -> Forall2 R' l l'.
Proof.
  intros H Himp. induction H; constructor; auto.
Qed.

Lemma heat_data_exact (lo hi : Q) (rows : DataFrame) :
  overflows (hi - lo) = false ->
  Forall (fun ir => (lo <= MedHouseVal (snd ir) <= hi)%Q) rows ->
  heat_data lo hi rows = Ok (map (heat_row lo hi) rows).
Proof.
  intros Hov Hrows. rewrite heat_data_Ok. f_equal.
  apply map_ext_in. intros ir Hir.
  rewrite Forall_forall in Hrows. destruct (Hrows ir Hir) as [H1 H2].
  pose proof (weight64_exact lo hi _ Hov H1 H2) as Hw.
  rewrite weight64_Ok in Hw. injection Hw as Hw.
  unfold heat_row. now rewrite Hw.
Qed.

(** ** The value range *)

(** C1: in every completed run the range used for colours and weights is
    the minimum and maximum of the whole table, whatever was sampled; so
    a row drawn by two runs (any sample sizes, any seeds) gets the same
    weighted point, or the same marker, in both. *)
Theorem value_range_of_whole_table
    (cal : list Row) (k1 seed1 k2 seed2 : Z) (mode1 mode2 : Mode)
    (env1 env2 : Env Color) :
  run cal k1 seed1 mode1 = Ok env1 ->
  run cal k2 seed2 mode2 = Ok env2 ->
  same_encoding mode1 mode2 = true ->
  Series_min (map MedHouseVal cal) = Some (vmin env1)
  /\ Series_max (map MedHouseVal cal) = Some (vmax env1)
  /\ (forall r, In r cal -> (vmin env1 <= MedHouseVal r <= vmax env1)%Q)
  /\ vmin env2 = vmin env1
  /\ vmax env2 = vmax env1
  /\ forall i j ir,
       nth_error (df_show env1) i = Some ir ->
       nth_error (df_show env2) j = Some ir ->
       nth_error (heat_points (m env1)) i = nth_error (heat_points (m env2)) j
       /\ nth_error (markers (m env1)) i = nth_error (markers (m env2)) j.
Proof.
  intros H1 H2 Hmode.
  pose proof (script_inv _ _ _ _ _ H1) as (_ & _ & _ & Hlo1 & Hhi1 & _).
  pose proof (script_inv _ _ _ _ _ H2) as (_ & _ & _ & Hlo2 & Hhi2 & _).
  assert (Elo : vmin env2 = vmin env1) by congruence.
  assert (Ehi : vmax env2 = vmax env1) by congruence.
  repeat (split; [assumption|]).
  split; [intros r Hr; exact (table_value_in_range cal _ _ r Hlo1 Hhi1 Hr)|].
  repeat (split; [assumption|]).
  intros i j ir Hi Hj.
  destruct mode1 as [|r1 b1 z1], mode2 as [|r2 b2 z2]; try discriminate.
  - destruct (run_markers _ _ _ _ H1) as (Hm1 & -> & _).
    destruct (run_markers _ _ _ _ H2) as (Hm2 & -> & _).
    split; [now destruct i, j|].
    destruct (Forall2_nth_error _ _ _ Hm1 i ir Hi) as (mk1 & -> & c1 & Hc1 & ->).
    destruct (Forall2_nth_error _ _ _ Hm2 j ir Hj) as (mk2 & -> & c2 & Hc2 & ->).
    rewrite Elo, Ehi in Hc2. congruence.
  - destruct (run_heat _ _ _ _ _ _ _ H1) as (p1 & Hp1 & _ & _ & -> & ->).
    destruct (run_heat _ _ _ _ _ _ _ H2) as (p2 & Hp2 & _ & _ & -> & ->).
    split; [|now destruct i, j].
    rewrite heat_data_Ok in Hp1, Hp2.
    injection Hp1 as <-. injection Hp2 as <-.
    rewrite !nth_error_map, Hi, Hj, Elo, Ehi. reflexivity.
Qed.

(** ** The heat map *)

(** C7: when the table's value range is finite in binary64, a heat-map
    run puts one weighted point on the map per sampled row, in the
    sample's order, its weight the row's normalised value; for the
    three-row table with all three rows sampled these are the points of
    the three rows, with weights 0, 1/2 and 1. *)
Theorem heat_points_one_per_row
    (cal : list Row) (k seed radius blur max_z : Z) :
  (0 < length cal)%nat ->
  0 <= k <= Z.of_nat (length cal) -> 0 <= seed <= 2 ^ 32 - 1 ->
  range_finite cal = true ->
  exists env,
    run cal k seed (HeatMapMode radius blur max_z) = Ok env
    /\ Forall2 (fun ir p => weight64 (vmin env) (vmax env) (MedHouseVal (snd ir))
                            = Ok (snd p)
                            /\ fst p = (Latitude (snd ir), Longitude (snd ir)))
               (df_show env) (heat_points (m env))
    /\ Z.of_nat (length (heat_points (m env))) = k
    /\ (cal = dataset3 -> k = 3 ->
        exists w1 w2 w3,
          Permutation (heat_points (m env))
                      [(10, 20, Finite w1); (11, 21, Finite w2);
                       (12, 22, Finite w3)]%Q
          /\ (w1 == 0)%Q /\ (w2 == 1 # 2)%Q /\ (w3 == 1)%Q).
Proof.
  intros Hne Hk Hs Hfin.
  destruct (script_total_heat cal k seed radius blur max_z Hne Hk Hs Hfin)
    as (env & Hrun).
  exists env. split; [exact Hrun|].
  destruct (run_heat _ _ _ _ _ _ _ Hrun) as (points & Hpts & _ & _ & Hh & _).
  pose proof (script_inv _ _ _ _ _ Hrun) as (Hsample & _ & _ & Hlo & Hhi & _).
  rewrite Hh.
  split; [exact (heat_data_weights _ _ _ _ Hpts)|].
  destruct (sample_length G cal k seed _ Hsample) as (Hlen & _ & Hincl).
  split.
  { rewrite <- (Forall2_length (heat_data_weights _ _ _ _ Hpts)). exact Hlen. }
  intros -> ->.
  injection Hlo as Hlo. injection Hhi as Hhi.
  rewrite <- Hlo, <- Hhi in Hpts.
  rewrite heat_data_exact in Hpts.
  - injection Hpts as <-.
    exists (normalized 1 3 1), (normalized 1 3 2), (normalized 1 3 3).
    split; [|repeat split; reflexivity].
    exact (Permutation_map (heat_row 1 3) (sample_all G dataset3 seed _ Hsample)).
  - reflexivity.
  - apply Forall_forall. intros ir Hir. apply Hincl in Hir.
    simpl in Hir.
    destruct Hir as [<-|[<-|[<-|[]]]]; simpl; split; unfold Qle; simpl; lia.
Qed.


(** ** The map centre *)


(** ** The colormap *)

Lemma lut_index_256 (x : Q) :
  lut_index 256 x
  = if Qltb (x * 256) 0 then 0%nat
    else if Qle_bool 256 (x * 256) then 255%nat
    else Z.to_nat (Qfloor (x * 256)).
Proof.
  unfold lut_index. change (inject_Z (Z.of_nat 256)) with 256%Q.
  change (256 - 1)%nat with 255%nat.
  destruct (Qeq_bool (x * 256) 256) eqn:E; [|reflexivity].
  apply Qeq_bool_eq in E.
  assert (E1 : Qltb (x * 256) 0 = false) by (apply Qltb_ge; lra).
  assert (E2 : Qle_bool 256 (x * 256) = true) by (apply Qle_bool_iff; lra).
  now rewrite E1, E2.
Qed.

Lemma lut_index_cases (x : Q) :
  ((x * 256 < 0)%Q /\ lut_index 256 x = 0%nat)
  \/ ((256 <= x * 256)%Q /\ lut_index 256 x = 255%nat)
  \/ ((0 <= x * 256 < 256)%Q /\ 0 <= Qfloor (x * 256) < 256
      /\ lut_index 256 x = Z.to_nat (Qfloor (x * 256))).
Proof.
  rewrite lut_index_256.
  destruct (Qltb (x * 256) 0) eqn:E1.
  - left. split; [apply Qltb_lt; exact E1 | reflexivity].
  - apply Qltb_ge in E1. right.
    destruct (Qle_bool 256 (x * 256)) eqn:E2.
    + left. split; [apply Qle_bool_iff; exact E2 | reflexivity].
    + right.
      assert (H : (x * 256 < 256)%Q).
      { apply Qnot_le_lt. intros Hle. apply Qle_bool_iff in Hle. congruence. }
      split; [split; assumption|]. split; [|reflexivity].
      split.
      * change 0 with (Qfloor 0). apply Qfloor_resp_le. exact E1.
      * apply Z.le_succ_l, Z.lt_succ_r. apply Z.lt_succ_r.
        assert (Hf : (inject_Z (Qfloor (x * 256)) < inject_Z 256)%Q).
        { eapply Qle_lt_trans; [apply Qfloor_le | exact H]. }
        rewrite <- Zlt_Qlt in Hf. lia.
Qed.

Lemma lut_index_bin (x : Q) : lut_index 256 x = bin_index (Qfloor (x * 256)).
Proof.
  unfold bin_index.
  destruct (lut_index_cases x) as [[H ->]|[[H ->]|(H & Hf & ->)]].
  - assert (Hz : (inject_Z (Qfloor (x * 256)) < inject_Z 0)%Q).
    { eapply Qle_lt_trans; [apply Qfloor_le | exact H]. }
    rewrite <- Zlt_Qlt in Hz.
    destruct (Z.ltb_spec (Qfloor (x * 256)) 0); [reflexivity | lia].
  - apply Qfloor_resp_le in H. change (Qfloor 256) with 256 in H.
    destruct (Z.ltb_spec (Qfloor (x * 256)) 0); [lia|].
    destruct (Z.leb_spec 256 (Qfloor (x * 256))); [reflexivity | lia].
  - destruct (Z.ltb_spec (Qfloor (x * 256)) 0); [lia|].
    destruct (Z.leb_spec 256 (Qfloor (x * 256))); [lia | reflexivity].
Qed.

Lemma bin_index_monotone (f g : Z) : f <= g -> (bin_index f <= bin_index g)%nat.
Proof.
  intros H. unfold bin_index.
  destruct (Z.ltb_spec f 0), (Z.ltb_spec g 0),
           (Z.leb_spec 256 f), (Z.leb_spec 256 g); lia.
Qed.

Lemma bin_index_lt (f : Z) : (bin_index f < 256)%nat.
Proof.
  unfold bin_index.
  destruct (Z.ltb_spec f 0), (Z.leb_spec 256 f); lia.
Qed.

Lemma lut_index_monotone (a b : Q) :
  (a <= b)%Q -> (lut_index 256 a <= lut_index 256 b)%nat.
Proof.
  intros Hab. rewrite !lut_index_bin.
  apply bin_index_monotone, Qfloor_resp_le. lra.
Qed.


Lemma lut_index_same_bin (a b : Q) :
  Qfloor (a * 256) = Qfloor (b * 256) -> lut_index 256 a = lut_index 256 b.
Proof.
  intros E. rewrite !lut_index_bin, E. reflexivity.
Qed.


End ScriptProperties.

(** ** The properties at concrete inputs *)

(** A run with the congruential generator, the mean without rounding and
    the table's positions as colours. *)
Definition toy_run : list Row -> Z -> Z -> Mode -> result (Env nat) :=
  script Lcg ExactMean nat nat (fun i => i) (fun c => c).

Lemma value_range_of_whole_table_witness :
  exists env1 env2,
    toy_run dataset3 2 42 (HeatMapMode 12 18 13) = Ok env1
    /\ toy_run dataset3 3 7 (HeatMapMode 5 5 5) = Ok env2
    /\ Series_min (map MedHouseVal dataset3) = Some (vmin env1)
    /\ Series_max (map MedHouseVal dataset3) = Some (vmax env1)
    /\ (forall r, In r dataset3 -> (vmin env1 <= MedHouseVal r <= vmax env1)%Q)
    /\ vmin env2 = vmin env1
    /\ vmax env2 = vmax env1
    /\ forall i j ir,
         nth_error (df_show env1) i = Some ir ->
         nth_error (df_show env2) j = Some ir ->
         nth_error (heat_points (m env1)) i = nth_error (heat_points (m env2)) j
         /\ nth_error (markers (m env1)) i = nth_error (markers (m env2)) j.
Proof.
  eexists. eexists.
  split; [vm_compute; reflexivity|]. split; [vm_compute; reflexivity|].
  apply (value_range_of_whole_table Lcg ExactMean nat nat (fun i => i) (fun c => c)
           dataset3 2 42 3 7 (HeatMapMode 12 18 13) (HeatMapMode 5 5 5));
    vm_compute; reflexivity.
Defined.

Lemma heat_points_one_per_row_witness :
  exists env,
    toy_run dataset3 3 42 (HeatMapMode 12 18 13) = Ok env
    /\ Forall2 (fun ir p => weight64 (vmin env) (vmax env) (MedHouseVal (snd ir))
                            = Ok (snd p)
                            /\ fst p = (Latitude (snd ir), Longitude (snd ir)))
               (df_show env) (heat_points (m env))
    /\ Z.of_nat (length (heat_points (m env))) = 3
    /\ (dataset3 = dataset3 -> 3 = 3 ->
        exists w1 w2 w3,
          Permutation (heat_points (m env))
                      [(10, 20, Finite w1); (11, 21, Finite w2);
                       (12, 22, Finite w3)]%Q
          /\ (w1 == 0)%Q /\ (w2 == 1 # 2)%Q /\ (w3 == 1)%Q).
Proof.
  apply (heat_points_one_per_row Lcg ExactMean nat nat (fun i => i) (fun c => c)
           dataset3 3 42 12 18 13); try (simpl; lia).
  reflexivity.
Defined.




(** Scenario A: the three-row table is centred on (11, 21). *)
Example center_of_dataset3 :
  exists env,
    toy_run dataset3 3 42 CircleMarkerMode = Ok env
    /\ (center_lat env == 11)%Q /\ (center_lon env == 21)%Q.
Proof.
  eexists. split; [vm_compute; reflexivity|]. split; reflexivity.
Qed.



(** * Further properties of the script *)

(** ** Which arguments the sampler accepts *)

(** X1: [df.sample(k, random_state=seed)] returns rows exactly when
    0 <= k <= len(df) and 0 <= seed <= 2**32 - 1; for every other pair of
    arguments it raises. *)
Theorem sample_accepts (G : BitGenerator) (cal : list Row) (k seed : Z) :
  (exists rows, sample G (make_df cal) k seed = Ok rows)
  <-> (0 <= k <= Z.of_nat (length cal) /\ 0 <= seed <= 2 ^ 32 - 1).
Proof.
  split.
  - intros (rows & H). exact (sample_inv G cal k seed rows H).
  - intros [Hk Hs]. destruct (sample_Ok G cal k seed Hk Hs) as (rows & H & _).
    exists rows. exact H.
Qed.

(** X2: sampling as many rows as the table has returns every row of the
    table exactly once, in the generator's order; an empty table gives an
    empty sample. *)
Theorem sample_whole_table (G : BitGenerator) (cal : list Row) (seed : Z) :
  0 <= seed <= 2 ^ 32 - 1 ->
  exists rows,
    sample G (make_df cal) (Z.of_nat (length cal)) seed = Ok rows
    /\ Permutation rows (make_df cal)
    /\ (cal = [] -> rows = []).
Proof.
  intros Hs.
  destruct (sample_Ok G cal (Z.of_nat (length cal)) seed) as (rows & H & _);
    [lia | exact Hs |].
  exists rows. split; [exact H|].
  pose proof (sample_all G cal seed rows H) as Hp.
  split; [exact Hp|].
  intros ->. apply Permutation_sym, Permutation_nil in Hp. exact Hp.
Qed.

Lemma sample_whole_table_witness :
  exists rows,
    sample Lcg (make_df dataset3) (Z.of_nat (length dataset3)) 42 = Ok rows
    /\ Permutation rows (make_df dataset3)
    /\ (dataset3 = [] -> rows = []).
Proof.
  apply (sample_whole_table Lcg dataset3 42). simpl. lia.
Defined.

(** ** The two normalisations *)

(** X3: when the table's value range is finite in binary64, the marker
    branch and the heat-map branch normalise the rows of the table alike:
    matplotlib's [Normalize] and the script's own division both succeed,
    give the same number, and it lies in [0, 1] (also when all values are
    equal, where both give 0). *)
Theorem normalisations_agree (cal : list Row) (lo hi : Q) (r : Row) :
  Series_min (column MedHouseVal (make_df cal)) = Some lo ->
  Series_max (column MedHouseVal (make_df cal)) = Some hi ->
  overflows (hi - lo) = false ->
  In r cal ->
  exists x w,
    Normalize lo hi (MedHouseVal r) = Ok (Finite x)
    /\ weight64 lo hi (MedHouseVal r) = Ok (Finite w)
    /\ (x == w)%Q
    /\ (0 <= w <= 1)%Q.
Proof.
  intros Hlo Hhi Hov Hr. rewrite column_make_df in Hlo, Hhi.
  destruct (table_value_in_range cal lo hi r Hlo Hhi Hr) as [H1 H2].
  exists (if Qeq_bool lo hi then 0%Q else ((MedHouseVal r - lo) / (hi - lo))%Q),
         (normalized lo hi (MedHouseVal r)).
  split; [|split; [apply weight64_exact; assumption
                  | split; [|apply normalized_unit; assumption]]].
  - destruct (Qeq_bool lo hi) eqn:E.
    + apply Qeq_bool_eq in E. apply Normalize_degenerate. lra.
    + apply Qeq_bool_neq in E. apply Normalize_exact; try assumption. lra.
  - destruct (Qeq_bool lo hi) eqn:E.
    + apply Qeq_bool_eq in E.
      unfold normalized. rewrite denom_degenerate by lra.
      assert (E' : (MedHouseVal r - lo == 0)%Q) by lra.
      rewrite E'. reflexivity.
    + apply Qeq_bool_neq in E.
      unfold normalized. rewrite denom_range by lra. reflexivity.
Qed.

Lemma normalisations_agree_witness :
  exists x w,
    Normalize 1 3 (MedHouseVal row2) = Ok (Finite x)
    /\ weight64 1 3 (MedHouseVal row2) = Ok (Finite w)
    /\ (x == w)%Q
    /\ (0 <= w <= 1)%Q.
Proof.
  apply (normalisations_agree dataset3 1 3 row2); try reflexivity.
  simpl. auto.
Defined.

Lemma lut_index_Qeq (x y : Q) : (x == y)%Q -> lut_index 256 x = lut_index 256 y.
Proof.
  intros E. apply lut_index_same_bin. rewrite E. reflexivity.
Qed.

Section ScriptCoverage.
Variable G : BitGenerator.
Variable P : Mean.
Variables RGBA Color : Type.
Variable viridis : nat -> RGBA.
Variable to_hex : RGBA -> Color.

Abbreviation run' := (script G P RGBA Color viridis to_hex).
Abbreviation colour' := (color_of RGBA Color viridis to_hex).

(** ** When a run completes *)

(** X4: a marker run reaches the map display exactly when the table has a
    row, 0 <= max_show <= len(df) and 0 <= seed <= 2**32 - 1: the marker
    loop never raises.  A heat-map run needs the same and, given that,
    completes for any radius, blur and max_zoom whenever the table's value
    range is finite in binary64. *)
Theorem script_completes (cal : list Row) (k seed : Z) :
  ((exists env, run' cal k seed CircleMarkerMode = Ok env)
   <-> ((0 < length cal)%nat
        /\ 0 <= k <= Z.of_nat (length cal) /\ 0 <= seed <= 2 ^ 32 - 1))
  /\ forall radius blur max_z,
       ((exists env, run' cal k seed (HeatMapMode radius blur max_z) = Ok env)
        -> ((0 < length cal)%nat
            /\ 0 <= k <= Z.of_nat (length cal) /\ 0 <= seed <= 2 ^ 32 - 1))
       /\ (((0 < length cal)%nat
            /\ 0 <= k <= Z.of_nat (length cal) /\ 0 <= seed <= 2 ^ 32 - 1)
           -> range_finite cal = true
           -> exists env, run' cal k seed (HeatMapMode radius blur max_z) = Ok env).
Proof.
  assert (Hnec : forall mode,
             (exists env, run' cal k seed mode = Ok env) ->
             (0 < length cal)%nat
             /\ 0 <= k <= Z.of_nat (length cal) /\ 0 <= seed <= 2 ^ 32 - 1).
  { intros mode (env & H).
    pose proof (script_inv G P RGBA Color viridis to_hex _ _ _ _ _ H)
      as (Hs & Hmean & _).
    destruct (sample_inv G cal k seed _ Hs) as [Hk Hseed].
    split; [|split; assumption].
    destruct cal; [|simpl; lia].
    simpl in Hmean.
    assert (E : Series_mean P [] = None) by (apply Series_mean_nan; reflexivity).
    congruence. }
  split.
  - split; [apply Hnec|].
    intros (Hne & Hk & Hs).
    exact (script_total_markers G P RGBA Color viridis to_hex cal k seed Hne Hk Hs).
  - intros radius blur max_z. split; [apply Hnec|].
    intros (Hne & Hk & Hs) Hfin.
    exact (script_total_heat G P RGBA Color viridis to_hex cal k seed
             radius blur max_z Hne Hk Hs Hfin).
Qed.

(** X11: a heat-map run whose sample holds a row so far above the
    minimum that the difference overflows raises at the heat layer: that
    row's weight is infinity / infinity = NaN and folium refuses it. *)
Theorem heat_run_refuses_nan
    (cal : list Row) (k seed radius blur max_z : Z)
    (rows : DataFrame) (lo : Q) (ir : nat * Row) :
  sample G (make_df cal) k seed = Ok rows ->
  In ir rows ->
  Series_min (column MedHouseVal (make_df cal)) = Some lo ->
  overflows (MedHouseVal (snd ir) - lo) = true ->
  run' cal k seed (HeatMapMode radius blur max_z) = Err (ValueError NaNData).
Proof.
  intros Hsample Hir Hlo Hov.
  destruct (sample_inv G cal k seed rows Hsample) as [Hk Hs].
  destruct (sample_length G cal k seed rows Hsample) as (_ & _ & Hincl).
  assert (Hne : (0 < length cal)%nat).
  { destruct cal; [|simpl; lia].
    apply Hincl in Hir. destruct Hir. }
  destruct (script_layer G P RGBA Color viridis to_hex cal k seed
              (HeatMapMode radius blur max_z) Hne Hk Hs)
    as (rows' & clat & clon & lo' & hi & Hrows' & Hlo' & Hhi & _ & ->).
  rewrite column_make_df in Hlo.
  assert (rows' = rows) by congruence. subst rows'.
  assert (lo' = lo) by congruence. subst lo'.
  unfold add_heatmap. rewrite heat_data_Ok. simpl. unfold folium_HeatMap.
  match goal with |- context [existsb ?f ?l] => destruct (existsb f l) eqn:E end;
    [reflexivity|].
  exfalso.
  assert (Hex : existsb (fun p : Q * Q * float => float_is_nan (snd p))
                  (map (fun ir0 : nat * Row =>
                          (Latitude (snd ir0), Longitude (snd ir0),
                           ieee_div (float_sub (MedHouseVal (snd ir0)) lo)
                                    (denom64 lo hi))) rows) = true).
  { apply existsb_exists. eexists. split; [apply in_map; exact Hir|].
    simpl.
    destruct (table_value_in_range cal lo hi (snd ir) Hlo' Hhi
                (make_df_In _ _ (Hincl _ Hir))) as [H1 H2].
    destruct (weight64_nan lo hi _ H1 H2) as (w & Hw & Hnan & _).
    rewrite weight64_Ok in Hw. injection Hw as <-.
    rewrite Hnan. exact Hov. }
  congruence.
Qed.

(** ** The marker layer *)

(** X5: a marker run puts one circle marker on the map per sampled row,
    in the sample's order: at the row's latitude and longitude, radius 3,
    filled with its stroke colour, the colour that of the row's value,
    and the popup quoting the row's own (not normalised) value. *)
Theorem markers_one_per_row (cal : list Row) (k seed : Z) :
  (0 < length cal)%nat ->
  0 <= k <= Z.of_nat (length cal) -> 0 <= seed <= 2 ^ 32 - 1 ->
  exists env,
    run' cal k seed CircleMarkerMode = Ok env
    /\ Z.of_nat (length (markers (m env))) = k
    /\ Forall2 (fun ir mk =>
                  cm_location mk = (Latitude (snd ir), Longitude (snd ir))
                  /\ cm_radius Color mk = 3
                  /\ cm_fill Color mk = true
                  /\ cm_fill_color Color mk = cm_color mk
                  /\ cm_popup mk = MedHouseVal (snd ir)
                  /\ colour' (vmin env) (vmax env) (snd ir) = Ok (cm_color mk))
               (df_show env) (markers (m env)).
Proof.
  intros Hne Hk Hs.
  destruct (script_total_markers G P RGBA Color viridis to_hex cal k seed
              Hne Hk Hs) as (env & Hrun).
  exists env. split; [exact Hrun|].
  destruct (run_markers G P RGBA Color viridis to_hex _ _ _ _ Hrun) as (Hall & _).
  pose proof (script_inv G P RGBA Color viridis to_hex _ _ _ _ _ Hrun)
    as (Hsample & _).
  split.
  - rewrite <- (Forall2_length Hall).
    apply (sample_length G cal k seed _ Hsample).
  - apply (Forall2_weaken _ _ _ _ Hall).
    intros ir mk (c & Hc & ->). simpl. repeat split. exact Hc.
Qed.

(** X6: the finished map carries the tile layer and one encoding only.
    After a marker run the other children are the markers, as many as
    sampled rows, and there is no heat point; after a heat-map run there
    is one more child, the heat layer, and no marker.  Either way the map
    is centred on the computed centre at zoom 6. *)
Theorem one_layer_per_mode
    (cal : list Row) (k seed : Z) (mode : Mode) (env : Env Color) :
  run' cal k seed mode = Ok env ->
  location (m env) = (center_lat env, center_lon env)
  /\ zoom_start (m env) = 6
  /\ match mode with
     | CircleMarkerMode =>
         children (m env)
         = TileLayerChild CartoDB_positron :: map MarkerChild (markers (m env))
         /\ length (markers (m env)) = length (df_show env)
         /\ heat_points (m env) = []
     | HeatMapMode radius blur max_z =>
         (exists h, children (m env)
                    = [TileLayerChild CartoDB_positron; HeatMapChild h])
         /\ markers (m env) = []
         /\ length (heat_points (m env)) = length (df_show env)
     end.
Proof.
  intros Hrun.
  destruct (run_map G P RGBA Color viridis to_hex _ _ _ _ _ Hrun) as [Hloc Hzoom].
  split; [exact Hloc|]. split; [exact Hzoom|].
  destruct mode as [|radius blur max_z].
  - destruct (run_markers G P RGBA Color viridis to_hex _ _ _ _ Hrun)
      as (Hall & Hh & Hch).
    split; [exact Hch|]. split; [|exact Hh].
    symmetry. exact (Forall2_length Hall).
  - destruct (run_heat G P RGBA Color viridis to_hex _ _ _ _ _ _ _ Hrun)
      as (points & Hpts & _ & Hch & Hh & Hm).
    split; [eexists; exact Hch|]. split; [exact Hm|].
    rewrite Hh. symmetry. exact (Forall2_length (heat_data_weights _ _ _ _ Hpts)).
Qed.

(** ** The heat layer *)

(** X7: in a completed heat-map run every weight handed to the heat layer
    is a number between 0 and 1, whatever rows were sampled. *)
Theorem heat_weights_within_unit
    (cal : list Row) (k seed radius blur max_z : Z) (env : Env Color) :
  run' cal k seed (HeatMapMode radius blur max_z) = Ok env ->
  Forall (fun p => exists w, snd p = Finite w /\ (0 <= w <= 1)%Q)
         (heat_points (m env)).
Proof.
  intros Hrun.
  destruct (run_heat G P RGBA Color viridis to_hex _ _ _ _ _ _ _ Hrun)
    as (points & Hpts & Hnan & _ & -> & _).
  pose proof (script_inv G P RGBA Color viridis to_hex _ _ _ _ _ Hrun)
    as (Hsample & _ & _ & Hlo & Hhi & _).
  destruct (sample_length G cal k seed _ Hsample) as (_ & _ & Hincl).
  rewrite heat_data_Ok in Hpts. injection Hpts as <-.
  apply Forall_forall. intros p Hp.
  rewrite Forall_forall in Hnan. specialize (Hnan p Hp).
  apply in_map_iff in Hp. destruct Hp as (ir & <- & Hir).
  simpl in *.
  destruct (table_value_in_range cal _ _ (snd ir) Hlo Hhi
              (make_df_In _ _ (Hincl _ Hir))) as [H1 H2].
  destruct (weight64_nan (vmin env) (vmax env) _ H1 H2) as (w & Hw & Hwn & Hfin).
  rewrite weight64_Ok in Hw. injection Hw as <-.
  apply Hfin. congruence.
Qed.

(** ** Marker colours *)

(** X8: when the table's value range is finite in binary64, the colour
    follows the value among rows of the table: a row with a value at
    least as large never takes an earlier entry of the 256-colour table;
    a row at the minimum takes the first entry and, when the maximum
    exceeds the minimum, a row at the maximum takes the last. *)
Theorem marker_colours_follow_values (cal : list Row) (lo hi : Q) (r1 r2 : Row) :
  Series_min (column MedHouseVal (make_df cal)) = Some lo ->
  Series_max (column MedHouseVal (make_df cal)) = Some hi ->
  overflows (hi - lo) = false ->
  In r1 cal -> In r2 cal ->
  (MedHouseVal r1 <= MedHouseVal r2)%Q ->
  exists i1 i2,
    colour' lo hi r1 = Ok (to_hex (viridis i1))
    /\ colour' lo hi r2 = Ok (to_hex (viridis i2))
    /\ (i1 <= i2 < 256)%nat
    /\ ((MedHouseVal r1 == lo)%Q -> i1 = 0%nat)
    /\ ((lo < hi)%Q -> (MedHouseVal r2 == hi)%Q -> i2 = 255%nat).
Proof.
  intros Hlo Hhi Hov Hr1 Hr2 Hle. rewrite column_make_df in Hlo, Hhi.
  destruct (table_value_in_range cal lo hi r1 Hlo Hhi Hr1) as [Ha1 Ha2].
  destruct (table_value_in_range cal lo hi r2 Hlo Hhi Hr2) as [Hb1 Hb2].
  unfold color_of, cmap_float.
  destruct (Qlt_le_dec lo hi) as [Hlt|Hge].
  - rewrite !Normalize_exact by assumption. simpl.
    eexists; eexists. split; [reflexivity|]. split; [reflexivity|].
    assert (Hpos : (0 < / (hi - lo))%Q) by (apply Qinv_lt_0_compat; lra).
    split; [split|split].
    + apply lut_index_monotone. unfold Qdiv.
      apply Qmult_le_compat_r; [lra | apply Qlt_le_weak; exact Hpos].
    + rewrite lut_index_bin. apply bin_index_lt.
    + intros E. rewrite (lut_index_Qeq _ 0); [reflexivity|].
      unfold Qdiv. assert (E' : (MedHouseVal r1 - lo == 0)%Q) by lra.
      rewrite E'. ring.
    + intros _ E. rewrite (lut_index_Qeq _ 1); [reflexivity|].
      rewrite E. field. lra.
  - rewrite !Normalize_degenerate by lra. simpl.
    exists (lut_index 256 0), (lut_index 256 0).
    split; [reflexivity|]. split; [reflexivity|].
    split; [split; [apply Nat.le_refl | vm_compute; lia]|].
    split; [intros _; reflexivity | intros Hlt; lra].
Qed.

(** X12: when the range overflows, a row whose own difference from the
    minimum overflows is normalised to NaN and gets the "bad" colour,
    row 258 of the table; a row whose difference is finite is normalised
    to 0 and gets the first colour.  No marker colouring raises. *)
Theorem marker_colour_on_overflow (lo hi : Q) (r : Row) :
  (lo <= MedHouseVal r)%Q -> (MedHouseVal r <= hi)%Q ->
  overflows (hi - lo) = true ->
  colour' lo hi r
  = Ok (to_hex (viridis (if overflows (MedHouseVal r - lo) then 258%nat else 0%nat))).
Proof.
  intros H1 H2 Hov. unfold color_of, cmap_float, Normalize.
  assert (Hpos : (0 <= hi - lo)%Q) by lra.
  assert (Hpos' : (0 <= MedHouseVal r - lo)%Q) by lra.
  assert (Hlt : (lo < hi)%Q).
  { apply Qnot_le_lt. intros Hle.
    assert (E : (hi - lo <= 1)%Q) by lra.
    rewrite (overflows_unit _ Hpos E) in Hov. discriminate. }
  destruct (Qeq_bool lo hi) eqn:E; [apply Qeq_bool_eq in E; lra|].
  assert (E' : Qltb hi lo = false) by (apply Qltb_ge; lra).
  rewrite E'. simpl. unfold float_sub.
  rewrite (round64_overflow _ Hpos Hov).
  destruct (overflows (MedHouseVal r - lo)) eqn:Hv.
  - rewrite (round64_overflow _ Hpos' Hv). reflexivity.
  - rewrite (round64_exact _ Hv). reflexivity.
Qed.

(** ** Switching the mode *)

(** X10: the sample is drawn before the mode is looked at: a completed
    marker run and a completed heat-map run with the same sample size and
    seed have drawn the same rows in the same order, bound the same
    centre and value range, and made one marker, respectively one heat
    point, per row. *)
Theorem mode_switch_keeps_sample
    (cal : list Row) (k seed radius blur max_z : Z) (env1 env2 : Env Color) :
  run' cal k seed CircleMarkerMode = Ok env1 ->
  run' cal k seed (HeatMapMode radius blur max_z) = Ok env2 ->
  df_show env1 = df_show env2
  /\ location (m env1) = location (m env2)
  /\ vmin env1 = vmin env2 /\ vmax env1 = vmax env2
  /\ length (markers (m env1)) = length (heat_points (m env2)).
Proof.
  intros H1 H2.
  pose proof (script_inv G P RGBA Color viridis to_hex _ _ _ _ _ H1)
    as (Hs1 & Hlat1 & Hlon1 & Hlo1 & Hhi1 & _).
  pose proof (script_inv G P RGBA Color viridis to_hex _ _ _ _ _ H2)
    as (Hs2 & Hlat2 & Hlon2 & Hlo2 & Hhi2 & _).
  destruct (run_map G P RGBA Color viridis to_hex _ _ _ _ _ H1) as [Hloc1 _].
  destruct (run_map G P RGBA Color viridis to_hex _ _ _ _ _ H2) as [Hloc2 _].
  assert (E : df_show env1 = df_show env2) by congruence.
  split; [exact E|].
  split; [rewrite Hloc1, Hloc2; congruence|].
  split; [congruence|]. split; [congruence|].
  destruct (run_markers G P RGBA Color viridis to_hex _ _ _ _ H1) as (Hall & _).
  destruct (run_heat G P RGBA Color viridis to_hex _ _ _ _ _ _ _ H2)
    as (points & Hpts & _ & _ & -> & _).
  rewrite <- (Forall2_length (heat_data_weights _ _ _ _ Hpts)), <- E.
  symmetry. exact (Forall2_length Hall).
Qed.

End ScriptCoverage.

(** ** The further properties at concrete inputs *)

Lemma markers_one_per_row_witness :
  exists env,
    toy_run dataset3 2 42 CircleMarkerMode = Ok env
    /\ Z.of_nat (length (markers (m env))) = 2
    /\ Forall2 (fun ir mk =>
                  cm_location mk = (Latitude (snd ir), Longitude (snd ir))
                  /\ cm_radius nat mk = 3
                  /\ cm_fill nat mk = true
                  /\ cm_fill_color nat mk = cm_color mk
                  /\ cm_popup mk = MedHouseVal (snd ir)
                  /\ color_of nat nat (fun i => i) (fun c => c)
                              (vmin env) (vmax env) (snd ir) = Ok (cm_color mk))
               (df_show env) (markers (m env)).
Proof.
  apply (markers_one_per_row Lcg ExactMean nat nat (fun i => i) (fun c => c)
           dataset3 2 42);
    simpl; lia.
Defined.

Lemma heat_run_refuses_nan_witness :
  toy_run dataset_huge 3 42 (HeatMapMode 12 18 13) = Err (ValueError NaNData).
Proof.
  eapply (heat_run_refuses_nan Lcg ExactMean nat nat (fun i => i) (fun c => c)
            dataset_huge 3 42 12 18 13 _ (- huge)%Q (2%nat, mkRow 12 22 huge)).
  - vm_compute. reflexivity.
  - vm_compute. auto.
  - vm_compute. reflexivity.
  - vm_compute. reflexivity.
Defined.

Lemma one_layer_per_mode_witness :
  exists env,
    toy_run dataset3 3 42 (HeatMapMode 12 18 13) = Ok env
    /\ location (m env) = (center_lat env, center_lon env)
    /\ zoom_start (m env) = 6
    /\ (exists h, children (m env)
                  = [TileLayerChild CartoDB_positron; HeatMapChild h])
    /\ markers (m env) = []
    /\ length (heat_points (m env)) = length (df_show env).
Proof.
  eexists. split; [vm_compute; reflexivity|].
  apply (one_layer_per_mode Lcg ExactMean nat nat (fun i => i) (fun c => c)
           dataset3 3 42 (HeatMapMode 12 18 13)).
  vm_compute. reflexivity.
Defined.

Lemma heat_weights_within_unit_witness :
  exists env,
    toy_run dataset3 2 42 (HeatMapMode 12 18 13) = Ok env
    /\ Forall (fun p => exists w, snd p = Finite w /\ (0 <= w <= 1)%Q)
              (heat_points (m env)).
Proof.
  eexists. split; [vm_compute; reflexivity|].
  apply (heat_weights_within_unit Lcg ExactMean nat nat (fun i => i) (fun c => c)
           dataset3 2 42 12 18 13).
  vm_compute. reflexivity.
Defined.

Lemma marker_colours_follow_values_witness :
  exists i1 i2,
    color_of nat nat (fun i => i) (fun c => c) 1 3 row1 = Ok i1
    /\ color_of nat nat (fun i => i) (fun c => c) 1 3 row3 = Ok i2
    /\ (i1 <= i2 < 256)%nat
    /\ ((MedHouseVal row1 == 1)%Q -> i1 = 0%nat)
    /\ ((1 < 3)%Q -> (MedHouseVal row3 == 3)%Q -> i2 = 255%nat).
Proof.
  apply (marker_colours_follow_values nat nat (fun i => i) (fun c => c)
           dataset3 1 3 row1 row3); try reflexivity.
  - simpl. auto.
  - simpl. auto.
  - unfold Qle. simpl. lia.
Defined.

Lemma marker_colour_on_overflow_witness :
  color_of nat nat (fun i => i) (fun c => c) (- huge) huge (mkRow 12 22 huge)
  = Ok (if overflows (MedHouseVal (mkRow 12 22 huge) - - huge)
        then 258%nat else 0%nat).
Proof.
  apply (marker_colour_on_overflow nat nat (fun i => i) (fun c => c)
           (- huge)%Q huge (mkRow 12 22 huge)); vm_compute; try reflexivity;
    intros H; discriminate H.
Defined.

Lemma mode_switch_keeps_sample_witness :
  exists env1 env2,
    toy_run dataset3 2 42 CircleMarkerMode = Ok env1
    /\ toy_run dataset3 2 42 (HeatMapMode 12 18 13) = Ok env2
    /\ df_show env1 = df_show env2
    /\ location (m env1) = location (m env2)
    /\ vmin env1 = vmin env2 /\ vmax env1 = vmax env2
    /\ length (markers (m env1)) = length (heat_points (m env2)).
Proof.
  eexists. eexists.
  split; [vm_compute; reflexivity|]. split; [vm_compute; reflexivity|].
  apply (mode_switch_keeps_sample Lcg ExactMean nat nat (fun i => i) (fun c => c)
           dataset3 2 42 12 18 13); vm_compute; reflexivity.
Defined.
